(** * Autograd graph nodes and the range profiler

    A shallow embedding of [torch/csrc/autograd/function.h] (the [Function]
    node of the autograd graph and its free functions) and of
    [torch/csrc/autograd/profiler.cpp] (the event recorder), followed by the
    properties of both that the specification states.

    Conventions.
    - [uint32_t] and [uint64_t] values are numbers in [N], every narrowing
      conversion written out with [to_uint32] / [to_uint64]; [int32_t] and
      [int64_t] values live in [Z].
    - [size_t] indices and container sizes are [nat]: the code never does
      arithmetic on them that could wrap.
    - A call either returns, throws, or has no defined behaviour (an
      unchecked [operator[]] out of range, a null pointer dereference). *)

From stdpp Require Import gmap strings list fin_maps pretty.

#[local] Open Scope string_scope.
#[local] Open Scope list_scope.
#[local] Open Scope nat_scope.

(** ** Machine integers *)

Definition uint32_modulus : N := 4294967296.
Definition uint64_modulus : N := 18446744073709551616.

(** Conversion of an unsigned value to [uint32_t] / [uint64_t]. *)
Definition to_uint32 (n : N) : N := (n mod uint32_modulus)%N.
Definition to_uint64 (n : N) : N := (n mod uint64_modulus)%N.

(** Conversion of a [uint32_t] to [int32_t] (two's complement). *)
Definition to_int32 (n : N) : Z :=
  let z := Z.of_N (to_uint32 n) in
  if (z <? 2147483648)%Z then z else (z - 4294967296)%Z.

(** ** Outcome of a call *)

Inductive outcome (A : Type) : Type :=
  | Returns (a : A)
  | Throws (what : string)
  | Undefined.
Arguments Returns {A} a.
Arguments Throws {A} what.
Arguments Undefined {A}.

(** [std::any_of]: the first element satisfying the predicate ends the
    scan; so does a predicate call that does not return. *)
Fixpoint any_of {A : Type} (p : A → outcome bool) (l : list A) : outcome bool :=
  match l with
  | [] => Returns false
  | x :: rest =>
      match p x with
      | Returns true => Returns true
      | Returns false => any_of p rest
      | Throws what => Throws what
      | Undefined => Undefined
      end
  end.

Module Autograd.

(** *** Edge, InputMetadata, Variable *)

(** Modelled from the spec: [edge.h] is not among the sources.  An [Edge]
    is a (node reference, input slot) pair; a node reference is the
    address-equivalent identity of a [Function], [None] being the null
    pointer.  A default-constructed edge is the invalid placeholder. *)
Record Edge : Type := mkEdge {
  function : option N;
  input_nr : N
}.

Definition Edge_default : Edge := {| function := None; input_nr := 0 |}.

Definition is_valid (e : Edge) : bool :=
  match function e with
  | Some _ => true
  | None => false
  end.

(** Modelled from the spec: [input_metadata.h] is not among the sources.
    The per-input type / shape / device descriptor; the default-constructed
    one (no type) marks an unused slot. *)
Record InputMetadata : Type := mkInputMetadata {
  type_ : option N;
  shape_ : list Z;
  device_ : Z
}.

Definition InputMetadata_default : InputMetadata :=
  {| type_ := None; shape_ := []; device_ := (-1)%Z |}.

(** Modelled from the spec: [variable.h] is not among the sources.  A value
    exposes [defined()], [requires_grad()], its descriptor, and a gradient
    edge that [set_gradient_edge] records and [gradient_edge] reads.
    (The record is [Variable_] because [Variable] is a reserved word.) *)
Record Variable_ : Type := mkVariable {
  defined : bool;
  requires_grad : bool;
  var_type : N;
  sizes : list Z;
  var_device : Z;
  gradient_edge : Edge
}.

Definition set_gradient_edge (v : Variable_) (e : Edge) : Variable_ :=
  {| defined := defined v; requires_grad := requires_grad v;
     var_type := var_type v; sizes := sizes v; var_device := var_device v;
     gradient_edge := e |}.

(** [InputMetadata(const at::Tensor& t)]: the descriptor derived from a value. *)
Definition InputMetadata_of_tensor (t : Variable_) : InputMetadata :=
  {| type_ := Some (var_type t); shape_ := sizes t; device_ := var_device t |}.

(** *** The Function node *)

Record Function : Type := mkFunction {
  sequence_nr_ : N;
  next_edges_ : list Edge;
  pyobj_ : option N;
  anomaly_metadata_ : option bool;  (* Some b: metadata exists, b = stack stored *)
  pre_hooks_ : list N;
  post_hooks_ : list N;
  input_metadata_ : list InputMetadata
}.

Definition with_input_metadata (f : Function) (l : list InputMetadata) : Function :=
  {| sequence_nr_ := sequence_nr_ f; next_edges_ := next_edges_ f;
     pyobj_ := pyobj_ f; anomaly_metadata_ := anomaly_metadata_ f;
     pre_hooks_ := pre_hooks_ f; post_hooks_ := post_hooks_ f;
     input_metadata_ := l |}.

Definition with_next_edges (f : Function) (l : list Edge) : Function :=
  {| sequence_nr_ := sequence_nr_ f; next_edges_ := l;
     pyobj_ := pyobj_ f; anomaly_metadata_ := anomaly_metadata_ f;
     pre_hooks_ := pre_hooks_ f; post_hooks_ := post_hooks_ f;
     input_metadata_ := input_metadata_ f |}.

Definition with_pyobj (f : Function) (p : option N) : Function :=
  {| sequence_nr_ := sequence_nr_ f; next_edges_ := next_edges_ f;
     pyobj_ := p; anomaly_metadata_ := anomaly_metadata_ f;
     pre_hooks_ := pre_hooks_ f; post_hooks_ := post_hooks_ f;
     input_metadata_ := input_metadata_ f |}.

Definition with_anomaly_metadata (f : Function) (m : option bool) : Function :=
  {| sequence_nr_ := sequence_nr_ f; next_edges_ := next_edges_ f;
     pyobj_ := pyobj_ f; anomaly_metadata_ := m;
     pre_hooks_ := pre_hooks_ f; post_hooks_ := post_hooks_ f;
     input_metadata_ := input_metadata_ f |}.

Definition with_pre_hooks (f : Function) (l : list N) : Function :=
  {| sequence_nr_ := sequence_nr_ f; next_edges_ := next_edges_ f;
     pyobj_ := pyobj_ f; anomaly_metadata_ := anomaly_metadata_ f;
     pre_hooks_ := l; post_hooks_ := post_hooks_ f;
     input_metadata_ := input_metadata_ f |}.

Definition with_post_hooks (f : Function) (l : list N) : Function :=
  {| sequence_nr_ := sequence_nr_ f; next_edges_ := next_edges_ f;
     pyobj_ := pyobj_ f; anomaly_metadata_ := anomaly_metadata_ f;
     pre_hooks_ := pre_hooks_ f; post_hooks_ := l;
     input_metadata_ := input_metadata_ f |}.

(** [metadata()]: the anomaly metadata, created empty when absent. *)
Definition metadata (f : Function) : Function :=
  match anomaly_metadata_ f with
  | Some _ => f
  | None => with_anomaly_metadata f (Some false)
  end.

(** [Function(sequence_nr, next_edges)]; [anomaly] is
    [AnomalyMode::is_enabled()]. *)
Definition new_Function (anomaly : bool) (sequence_nr : N) (next_edges : list Edge)
    : Function :=
  let f := {| sequence_nr_ := sequence_nr; next_edges_ := next_edges;
              pyobj_ := None; anomaly_metadata_ := None;
              pre_hooks_ := []; post_hooks_ := []; input_metadata_ := [] |} in
  if anomaly then with_anomaly_metadata (metadata f) (Some true) else f.

(** [Function(next_edges)]: the sequence number is taken from the calling
    thread's counter, which is then incremented
    ([get_next_sequence_nr()++]).  Returns the node and the new counter. *)
Definition new_Function_auto (anomaly : bool) (next_sequence_nr : N)
    (next_edges : list Edge) : Function * N :=
  (new_Function anomaly next_sequence_nr next_edges,
   to_uint64 (next_sequence_nr + 1)).

(** **** Inputs *)

Definition add_input_metadata_type (type : N) (shape : list Z) (device : Z)
    (f : Function) : N * Function :=
  let input_nr := to_uint32 (N.of_nat (length (input_metadata_ f))) in
  (input_nr,
   with_input_metadata f
     (input_metadata_ f ++ [ {| type_ := Some type; shape_ := shape; device_ := device |} ])).

Definition add_input_metadata_tensor (t : Variable_) (f : Function) : N * Function :=
  let input_nr := to_uint32 (N.of_nat (length (input_metadata_ f))) in
  (input_nr, with_input_metadata f (input_metadata_ f ++ [InputMetadata_of_tensor t])).

Definition add_input_metadata_undefined (f : Function) : N * Function :=
  let input_nr := to_uint32 (N.of_nat (length (input_metadata_ f))) in
  (input_nr, with_input_metadata f (input_metadata_ f ++ [InputMetadata_default])).

(** The three overloads behind one argument type. *)
Inductive input_arg : Type :=
  | from_type (type : N) (shape : list Z) (device : Z)
  | from_tensor (t : Variable_)
  | undefined_input.

Definition descriptor_of (a : input_arg) : InputMetadata :=
  match a with
  | from_type type shape device =>
      {| type_ := Some type; shape_ := shape; device_ := device |}
  | from_tensor t => InputMetadata_of_tensor t
  | undefined_input => InputMetadata_default
  end.

Definition add_input_metadata (a : input_arg) (f : Function) : N * Function :=
  match a with
  | from_type type shape device => add_input_metadata_type type shape device f
  | from_tensor t => add_input_metadata_tensor t f
  | undefined_input => add_input_metadata_undefined f
  end.

Definition num_inputs (f : Function) : N :=
  to_uint32 (N.of_nat (length (input_metadata_ f))).

(** [input_metadata_[index]]: unchecked; [None] when out of range. *)
Definition input_metadata (f : Function) (index : nat) : option InputMetadata :=
  input_metadata_ f !! index.

Definition clear_input_metadata (f : Function) : Function :=
  with_input_metadata f [].

(** **** Outputs *)

(** [next_edges_[index]]: unchecked; [None] when out of range. *)
Definition next_edge (f : Function) (index : nat) : option Edge :=
  next_edges_ f !! index.

Definition set_next_edge (index : nat) (edge : Edge) (f : Function) : option Function :=
  if decide (index < length (next_edges_ f))
  then Some (with_next_edges f (<[index := edge]> (next_edges_ f)))
  else None.

Definition add_next_edge (edge : Edge) (f : Function) : Function :=
  with_next_edges f (next_edges_ f ++ [edge]).

Definition set_next_edges (next_edges : list Edge) (f : Function) : Function :=
  with_next_edges f next_edges.

Definition num_outputs (f : Function) : N :=
  to_uint32 (N.of_nat (length (next_edges_ f))).

(** **** Miscellaneous *)

Definition sequence_nr (f : Function) : N := sequence_nr_ f.

Definition should_compute_output (f : Function) (output_edge_index : nat)
    : outcome bool :=
  if (N.of_nat output_edge_index <? num_outputs f)%N then
    match next_edges_ f !! output_edge_index with
    | Some e => Returns (is_valid e)
    | None => Undefined
    end
  else Throws "Index out of range".

(** [std::pair<size_t, size_t>], read as the half-open range
    [first, second). *)
Definition IndexRange : Type := nat * nat.

(** The loop [for (i = range.first; i < range.second; i++)] of the lambda,
    entered at [i] with [count] iterations left. *)
Fixpoint range_scan (f : Function) (i count : nat) : outcome bool :=
  match count with
  | O => Returns false
  | S count' =>
      match should_compute_output f i with
      | Returns true => Returns true
      | Returns false => range_scan f (S i) count'
      | Throws what => Throws what
      | Undefined => Undefined
      end
  end.

Definition range_active (f : Function) (range : IndexRange) : outcome bool :=
  range_scan f (fst range) (snd range - fst range).

Definition should_compute_output_ranges (f : Function) (idxs : list IndexRange)
    : outcome bool :=
  any_of (range_active f) idxs.

(** The indices the bulk overload visits, in the order it visits them when
    nothing stops the scan. *)
Definition scan_order (idxs : list IndexRange) : list nat :=
  concat (map (λ range : IndexRange, seq range.1 (range.2 - range.1)) idxs).

Definition pyobj (f : Function) : option N := pyobj_ f.
Definition set_pyobj (p : option N) (f : Function) : Function := with_pyobj f p.

Definition add_post_hook (h : N) (f : Function) : Function :=
  with_post_hooks f (post_hooks_ f ++ [h]).
Definition add_pre_hook (h : N) (f : Function) : Function :=
  with_pre_hooks f (pre_hooks_ f ++ [h]).

Definition release_variables (f : Function) : Function := f.
Definition will_release_variables (f : Function) : Function := f.
Definition is_traceable (f : Function) : bool := false.
Definition passes_state_transparently (f : Function) : bool := false.
Definition TraceableFunction_is_traceable (f : Function) : bool := true.

(** **** The mutating part of the public interface, as a step function

    Writing through the mutable view [next_edges()] is [call_set_next_edges];
    the call operator is left out, its effect being that of the subclass's
    [apply]. *)

Inductive method : Type :=
  | call_add_input_metadata (a : input_arg)
  | call_clear_input_metadata
  | call_set_next_edge (index : nat) (edge : Edge)
  | call_add_next_edge (edge : Edge)
  | call_set_next_edges (next_edges : list Edge)
  | call_set_pyobj (p : option N)
  | call_metadata
  | call_add_post_hook (h : N)
  | call_add_pre_hook (h : N)
  | call_write_post_hooks (hooks : list N)   (* through [post_hooks()] *)
  | call_write_pre_hooks (hooks : list N)    (* through [pre_hooks()] *)
  | call_release_variables
  | call_will_release_variables.

(** One call on a node; [None] when the call has no defined behaviour. *)
Definition step (m : method) (f : Function) : option Function :=
  match m with
  | call_add_input_metadata a => Some (snd (add_input_metadata a f))
  | call_clear_input_metadata => Some (clear_input_metadata f)
  | call_set_next_edge index edge => set_next_edge index edge f
  | call_add_next_edge edge => Some (add_next_edge edge f)
  | call_set_next_edges next_edges => Some (set_next_edges next_edges f)
  | call_set_pyobj p => Some (set_pyobj p f)
  | call_metadata => Some (metadata f)
  | call_add_post_hook h => Some (add_post_hook h f)
  | call_add_pre_hook h => Some (add_pre_hook h f)
  | call_write_post_hooks hooks => Some (with_post_hooks f hooks)
  | call_write_pre_hooks hooks => Some (with_pre_hooks f hooks)
  | call_release_variables => Some (release_variables f)
  | call_will_release_variables => Some (will_release_variables f)
  end.

Fixpoint run (ms : list method) (f : Function) : option Function :=
  match ms with
  | [] => Some f
  | m :: rest =>
      match step m f with
      | Some f' => run rest f'
      | None => None
      end
  end.

(** [add_input_metadata] called once per element of [args], in order:
    the returned slot indices and the final node. *)
Fixpoint add_inputs (args : list input_arg) (f : Function) : list N * Function :=
  match args with
  | [] => ([], f)
  | a :: rest =>
      let '(input_nr, f') := add_input_metadata a f in
      let '(nrs, f'') := add_inputs rest f' in
      (input_nr :: nrs, f'')
  end.

(** *** Associated free functions *)

(** Modelled from the spec: [variadic.h] ([IterArgs]) is not among the
    sources.  An argument of [collect_next_edges] is a value or a group of
    values; [apply] visits them flattened, in encounter order. *)
Inductive argument : Type :=
  | arg_variable (v : Variable_)
  | arg_variables (vs : list Variable_).

Definition flatten_arguments (args : list argument) : list Variable_ :=
  concat (map (λ a, match a with
                    | arg_variable v => [v]
                    | arg_variables vs => vs
                    end) args).

(** [detail::MakeNextFunctionList].  Besides the [next_edges] member, the
    model keeps the list of the values on which [operator()] was called, so
    that traversal is observable. *)
Record MakeNextFunctionList : Type := mkMake {
  next_edges : list Edge;
  examined : list Variable_
}.

Definition MakeNextFunctionList_call (make : MakeNextFunctionList) (variable : Variable_)
    : MakeNextFunctionList :=
  if defined variable
  then {| next_edges := next_edges make ++ [gradient_edge variable];
          examined := examined make ++ [variable] |}
  else {| next_edges := next_edges make ++ [Edge_default];
          examined := examined make ++ [variable] |}.

Definition MakeNextFunctionList_apply (make : MakeNextFunctionList)
    (args : list argument) : MakeNextFunctionList :=
  foldl MakeNextFunctionList_call make (flatten_arguments args).

(** [collect_next_edges]; [grad_mode] is [GradMode::is_enabled()].  Returns
    the edge list and the values examined on the way. *)
Definition collect_next_edges (grad_mode : bool) (args : list argument)
    : list Edge * list Variable_ :=
  if negb grad_mode then ([], [])
  else
    let make := MakeNextFunctionList_apply {| next_edges := []; examined := [] |} args in
    (next_edges make, examined make).

(** [create_gradient_edge(variable, function)]: [function] is a shared
    pointer into the store of nodes.  Returns the updated value and store;
    [None] when [function] does not point to a node. *)
Definition create_gradient_edge (variable : Variable_) (function : N)
    (nodes : gmap N Function) : option (Variable_ * gmap N Function) :=
  match nodes !! function with
  | None => None
  | Some f =>
      let '(input_nr, f') := add_input_metadata_tensor variable f in
      Some (set_gradient_edge variable {| function := Some function; input_nr := input_nr |},
            <[function := f']> nodes)
  end.

Definition any_variable_requires_grad (variables : list Variable_) : bool :=
  existsb (λ variable, defined variable && requires_grad variable) variables.

(** Nodes constructed one after another on one thread with
    [Function(next_edges)], one per edge list, starting from the thread's
    counter [next_sequence_nr]: the nodes and the counter afterwards. *)
Fixpoint construct_nodes (anomaly : bool) (next_sequence_nr : N)
    (edge_lists : list (list Edge)) : list Function * N :=
  match edge_lists with
  | [] => ([], next_sequence_nr)
  | edges :: rest =>
      let '(f, counter) := new_Function_auto anomaly next_sequence_nr edges in
      let '(fs, counter') := construct_nodes anomaly counter rest in
      (f :: fs, counter')
  end.

End Autograd.

Module Profiler.

(** *** Types of [profiler.h] *)

(** Modelled from the spec: [profiler.h] is not among the sources; the
    enumerators are those [profiler.cpp] names. *)
Inductive ProfilerState : Type := Disabled | CPU | CUDA | NVTX.

#[global] Instance ProfilerState_eq_dec : EqDecision ProfilerState.
Proof. solve_decision. Defined.

Inductive EventKind : Type := Mark | PushRange | PopRange.

(** Modelled from the spec: an event carries its kind, name, thread id and
    device-timer flag.  The time stamp taken when the event is built is left
    out. *)
Record Event : Type := mkEvent {
  kind : EventKind;
  name : string;
  event_thread_id : Z;
  has_cuda : bool
}.

(** Calls into the external device / timeline library. *)
Inductive external_call : Type :=
  | nvtxMarkA (name : string)
  | nvtxRangePushA (name : string)
  | nvtxRangePop
  | cudaDeviceSynchronize (device : nat).

(** What the build and the machine fix: whether [USE_CUDA] is defined, the
    device count [cudaGetDeviceCount] reports and, when that query fails,
    the error [TORCH_CUDA_CHECK] throws for it ([None]: the query
    succeeds). *)
Record Config : Type := mkConfig {
  use_cuda : bool;
  device_count : nat;
  device_query_error : option string
}.

(** The globals and thread-locals of [profiler.cpp].  [RangeEventList]
    objects live in a store, addressed by number: the registry
    [all_event_lists] and each thread's [event_list] hold such addresses
    (shared pointers).  A thread absent from [tls_event_list] has a null
    [event_list]; one absent from [tls_thread_id] has the zero-initialised
    [thread_id]. *)
Record World : Type := mkWorld {
  state : ProfilerState;
  next_thread_id : N;
  all_event_lists : list N;
  event_lists : gmap N (list Event);
  tls_event_list : gmap N N;
  tls_thread_id : gmap N Z;
  external_calls : list external_call
}.

Definition initial_world : World :=
  {| state := Disabled; next_thread_id := 0; all_event_lists := [];
     event_lists := ∅; tls_event_list := ∅; tls_thread_id := ∅;
     external_calls := [] |}.

Definition with_state (w : World) (s : ProfilerState) : World :=
  {| state := s; next_thread_id := next_thread_id w;
     all_event_lists := all_event_lists w; event_lists := event_lists w;
     tls_event_list := tls_event_list w; tls_thread_id := tls_thread_id w;
     external_calls := external_calls w |}.

Definition with_event_lists (w : World) (m : gmap N (list Event)) : World :=
  {| state := state w; next_thread_id := next_thread_id w;
     all_event_lists := all_event_lists w; event_lists := m;
     tls_event_list := tls_event_list w; tls_thread_id := tls_thread_id w;
     external_calls := external_calls w |}.

Definition with_registry (w : World) (l : list N) (m : gmap N (list Event)) : World :=
  {| state := state w; next_thread_id := next_thread_id w;
     all_event_lists := l; event_lists := m;
     tls_event_list := tls_event_list w; tls_thread_id := tls_thread_id w;
     external_calls := external_calls w |}.

Definition with_external_call (w : World) (c : external_call) : World :=
  {| state := state w; next_thread_id := next_thread_id w;
     all_event_lists := all_event_lists w; event_lists := event_lists w;
     tls_event_list := tls_event_list w; tls_thread_id := tls_thread_id w;
     external_calls := external_calls w ++ [c] |}.

(** *** Calls that read and write the world *)

Definition M (A : Type) : Type := World → outcome A * World.

#[global] Instance M_ret : MRet M := λ A a w, (Returns a, w).

#[global] Instance M_bind : MBind M := λ A B k c w,
  match c w with
  | (Returns a, w') => k a w'
  | (Throws what, w') => (Throws what, w')
  | (Undefined, w') => (Undefined, w')
  end.

Definition throw {A : Type} (what : string) : M A := λ w, (Throws what, w).
Definition get_state : M ProfilerState := λ w, (Returns (state w), w).
Definition set_state (s : ProfilerState) : M unit := λ w, (Returns tt, with_state w s).
Definition external (c : external_call) : M unit :=
  λ w, (Returns tt, with_external_call w c).

(** [count] times [body], as a [for] loop over [0 .. count-1] starting at [i]. *)
Fixpoint for_loop (i count : nat) (body : nat → M unit) : M unit :=
  match count with
  | O => mret tt
  | S count' => body i ;; for_loop (S i) count' body
  end.

(** *** profiler.cpp *)

(** The calling thread's [thread_id]. *)
Definition thread_id (t : N) (w : World) : Z := default 0%Z (tls_thread_id w !! t).

(** [getEventList()] on thread [t]: the address of the thread's list,
    created and registered on first use. *)
Definition getEventList (t : N) : M N :=
  λ w, match tls_event_list w !! t with
       | Some a => (Returns a, w)
       | None =>
           let a := fresh (dom (event_lists w)) in
           (Returns a,
            {| state := state w;
               next_thread_id := to_uint32 (next_thread_id w + 1);
               all_event_lists := a :: all_event_lists w;
               event_lists := <[a := []]> (event_lists w);
               tls_event_list := <[t := a]> (tls_event_list w);
               tls_thread_id := <[t := to_int32 (next_thread_id w)]> (tls_thread_id w);
               external_calls := external_calls w |})
       end.

(** Modelled from the spec: [RangeEventList::record] appends one event to
    the list. *)
Definition record (a : N) (k : EventKind) (name : string) (t : N) (cuda : bool)
    : M unit :=
  λ w, (Returns tt,
        with_event_lists w
          (alter (λ l, l ++ [ {| kind := k; name := name;
                                 event_thread_id := thread_id t w;
                                 has_cuda := cuda |} ]) a (event_lists w))).

Definition mark (cfg : Config) (name : string) (include_cuda : bool) (t : N) : M unit :=
  s ← get_state;
  if decide (s = NVTX) then
    if use_cuda cfg then external (nvtxMarkA name)
    else throw "mark called with NVTX tracing, but compiled without CUDA"
  else
    a ← getEventList t;
    s' ← get_state;
    record a Mark name t (include_cuda && bool_decide (s' = CUDA)).

Definition pushRange (cfg : Config) (name : string) (t : N) : M unit :=
  s ← get_state;
  if decide (s = Disabled) then mret tt
  else if decide (s = NVTX) then
    if use_cuda cfg then external (nvtxRangePushA name)
    else throw "pushRange called with NVTX tracing, but compiled without CUDA"
  else
    a ← getEventList t;
    s' ← get_state;
    record a PushRange name t (bool_decide (s' = CUDA)).

Definition popRange (cfg : Config) (t : N) : M unit :=
  s ← get_state;
  if decide (s = Disabled) then mret tt
  else if decide (s = NVTX) then
    if use_cuda cfg then external nvtxRangePop
    else throw "popRange called with NVTX tracing, but compiled without CUDA"
  else
    a ← getEventList t;
    s' ← get_state;
    record a PopRange "" t (bool_decide (s' = CUDA)).

(** [RecordFunction::RecordFunction(std::string name)] and the destructor. *)
Definition RecordFunction_ctor (cfg : Config) (name : string) (t : N) : M unit :=
  s ← get_state;
  if decide (s = Disabled) then mret tt else pushRange cfg name t.

Definition RecordFunction_dtor (cfg : Config) (t : N) : M unit :=
  s ← get_state;
  if decide (s = Disabled) then mret tt else popRange cfg t.

(** [onEachDevice(op)]: [TORCH_CUDA_CHECK(cudaGetDeviceCount(&count))]
    throws when the query fails; otherwise [op] runs once per device. *)
Definition onEachDevice (cfg : Config) (op : nat → M unit) : M unit :=
  match device_query_error cfg with
  | Some what => throw what
  | None => for_loop 0 (device_count cfg) op
  end.

Definition enableProfiler (cfg : Config) (new_state : ProfilerState) (t : N) : M unit :=
  if decide (new_state = Disabled)
  then throw "new_state != ProfilerState::Disabled ASSERT FAILED"
  else if negb (use_cuda cfg) && bool_decide (new_state = NVTX)
  then throw "Can't use NVTX profiler - PyTorch was compiled without CUDA"
  else
    s ← get_state;
    if bool_decide (s ≠ Disabled) && bool_decide (new_state ≠ s)
    then throw "can't change kind of profiling (e.g. NVTX to CPU) while profiler is running"
    else
      set_state new_state ;;
      (* from here on [state] is [new_state] *)
      (if use_cuda cfg && bool_decide (new_state = CUDA) then
         for_loop 0 5 (λ _,
           onEachDevice cfg (λ d,
             mark cfg "__cuda_startup" true t ;;
             external (cudaDeviceSynchronize d))) ;;
         onEachDevice cfg (λ d, mark cfg "__cuda_start_event" true t)
       else mret tt) ;;
      mark cfg "__start_profile" false t.

(** [list.use_count()]: the registry's reference plus one per thread whose
    [event_list] is this list. *)
Definition use_count (a : N) (w : World) : nat :=
  S (size (filter (λ kv, kv.2 = a) (tls_event_list w))).

(** The loop of [disableProfiler] over the registry: consolidate each list
    (modelled from the spec: [consolidate] drains the list and returns its
    events) and erase those no thread holds.  Returns the report, the
    registry kept and the store. *)
Fixpoint consolidate_all (w : World) (registry : list N)
    (store : gmap N (list Event)) : list (list Event) * list N * gmap N (list Event) :=
  match registry with
  | [] => ([], [], store)
  | a :: rest =>
      let events := default [] (store !! a) in
      if decide (use_count a w = 1) then
        let '(result, kept, store') := consolidate_all w rest (delete a store) in
        (events :: result, kept, store')
      else
        let '(result, kept, store') := consolidate_all w rest (<[a := []]> store) in
        (events :: result, a :: kept, store')
  end.

Definition disableProfiler (cfg : Config) (t : N) : M (list (list Event)) :=
  s ← get_state;
  if decide (s = Disabled)
  then throw "can't disable profiler when it's not running"
  else
    let old_state := s in
    mark cfg "__stop_profile" true t ;;
    set_state Disabled ;;
    if decide (old_state = NVTX) then mret []
    else
      λ w, let '(result, kept, store) :=
             consolidate_all w (all_event_lists w) (event_lists w) in
           (Returns result, with_registry w kept store).

(** A thread ends: its thread-locals are destroyed. *)
Definition thread_exit (t : N) (w : World) : World :=
  {| state := state w; next_thread_id := next_thread_id w;
     all_event_lists := all_event_lists w; event_lists := event_lists w;
     tls_event_list := delete t (tls_event_list w);
     tls_thread_id := delete t (tls_thread_id w);
     external_calls := external_calls w |}.

(** The events recorded so far in thread [t]'s list. *)
Definition thread_events (t : N) (w : World) : list Event :=
  match tls_event_list w !! t with
  | Some a => default [] (event_lists w !! a)
  | None => []
  end.

(** *** The interface as a transition system *)

(** The calls a thread can make, and the end of a thread. *)
Inductive api_call : Type :=
  | call_mark (name : string) (include_cuda : bool)
  | call_pushRange (name : string)
  | call_popRange
  | call_RecordFunction_ctor (name : string)
  | call_RecordFunction_dtor
  | call_enableProfiler (new_state : ProfilerState)
  | call_disableProfiler
  | call_thread_exit.

(** The world after thread [t] made the call, whether it returned or threw. *)
Definition api_step (cfg : Config) (c : api_call) (t : N) (w : World) : World :=
  match c with
  | call_mark name include_cuda => (mark cfg name include_cuda t w).2
  | call_pushRange name => (pushRange cfg name t w).2
  | call_popRange => (popRange cfg t w).2
  | call_RecordFunction_ctor name => (RecordFunction_ctor cfg name t w).2
  | call_RecordFunction_dtor => (RecordFunction_dtor cfg t w).2
  | call_enableProfiler new_state => (enableProfiler cfg new_state t w).2
  | call_disableProfiler => (disableProfiler cfg t w).2
  | call_thread_exit => thread_exit t w
  end.

Inductive reachable (cfg : Config) : World → Prop :=
  | reachable_initial : reachable cfg initial_world
  | reachable_step (w : World) (c : api_call) (t : N) :
      reachable cfg w → reachable cfg (api_step cfg c t w).

(** Every thread's [event_list] points to a list that exists. *)
Definition heap_ok (w : World) : Prop :=
  ∀ t a, tls_event_list w !! t = Some a → is_Some (event_lists w !! a).


(** A call that leaves [state] alone and keeps the store well formed. *)
Definition keeps {A : Type} (c : M A) : Prop :=
  ∀ w, heap_ok w → heap_ok (c w).2 ∧ state (c w).2 = state w.

(** A call that, outside the NVTX state, returns and only appends events to
    thread [t]'s list. *)
Definition appends (t : N) (c : M unit) : Prop :=
  ∀ w, state w ≠ NVTX → heap_ok w →
    ∃ w' evs, c w = (Returns tt, w') ∧ state w' = state w ∧ heap_ok w' ∧
              thread_events t w' = thread_events t w ++ evs.

End Profiler.

(** ** Instrumentation scopes: [RecordFunction] and the call operator *)

Module Scopes.
Import Profiler.

(** The thread-locals [RecordFunction::backward_apply_state] and
    [RecordFunction::backward_apply_sequence_nr] of one thread. *)
Record BackwardApply : Type := mkBackwardApply {
  backward_apply_state : bool;
  backward_apply_sequence_nr : Z
}.

Definition set_backward_apply_state (state : bool) (backward_apply_nr : Z)
    : BackwardApply :=
  {| backward_apply_state := state; backward_apply_sequence_nr := backward_apply_nr |}.

Definition pushFunctionRange (cfg : Config) (fn_name : string) (t : N) : M unit :=
  pushRange cfg fn_name t.

(** [RecordFunction::RecordFunction(Function* fn)]; [fn_name] is what the
    virtual [fn->name()] returns. *)
Definition RecordFunction_ctor_fn (cfg : Config) (fn_name : string) (t : N) : M unit :=
  s ← get_state;
  if decide (s = Disabled) then mret tt else pushFunctionRange cfg fn_name t.

(** The text the stream [s] holds in
    [RecordFunction(const char* name, int64_t current_sequence_nr)]. *)
Definition sequence_label (name : string) (current_sequence_nr : Z) (ba : BackwardApply)
    : string :=
  name +:+ ", current seq nr " +:+ pretty current_sequence_nr +:+
  (if backward_apply_state ba
   then ", backward apply seq nr " +:+ pretty (backward_apply_sequence_nr ba)
   else "").

Definition RecordFunction_ctor_seq (cfg : Config) (name : string)
    (current_sequence_nr : Z) (ba : BackwardApply) (t : N) : M unit :=
  s ← get_state;
  if decide (s = Disabled) then mret tt
  else pushRange cfg (sequence_label name current_sequence_nr ba) t.

(** A block that holds a [RecordFunction] local: the constructor, the body,
    and the destructor on the way out, whether the body returned or threw.
    A destructor that throws ends the program ([Undefined]). *)
Definition with_RecordFunction {A : Type} (ctor dtor : M unit) (body : M A) : M A :=
  λ w, match ctor w with
       | (Returns _, w1) =>
           match body w1 with
           | (Returns a, w2) =>
               match dtor w2 with
               | (Returns _, w3) => (Returns a, w3)
               | (_, w3) => (Undefined, w3)
               end
           | (Throws what, w2) =>
               match dtor w2 with
               | (Returns _, w3) => (Throws what, w3)
               | (_, w3) => (Undefined, w3)
               end
           | (Undefined, w2) => (Undefined, w2)
           end
       | (Throws what, w1) => (Throws what, w1)
       | (Undefined, w1) => (Undefined, w1)
       end.

(** [Function::operator()] of function.h: [RecordFunction rec(this)] and
    then the subclass's [apply], given here as the computation [apply] over
    the profiler's world. *)
Definition Function_call {A : Type} (cfg : Config) (fn_name : string) (apply : M A)
    (t : N) : M A :=
  with_RecordFunction (RecordFunction_ctor_fn cfg fn_name t) (RecordFunction_dtor cfg t)
    apply.

(** The recording calls, to run sequences of them. *)
Inductive recording_call : Type :=
  | rec_mark (name : string) (include_cuda : bool)
  | rec_pushRange (name : string)
  | rec_popRange
  | rec_RecordFunction (name : string)
  | rec_RecordFunction_fn (fn_name : string)
  | rec_RecordFunction_seq (name : string) (current_sequence_nr : Z) (ba : BackwardApply)
  | rec_RecordFunction_end.

Definition run_recording (cfg : Config) (c : recording_call) (t : N) : M unit :=
  match c with
  | rec_mark name include_cuda => mark cfg name include_cuda t
  | rec_pushRange name => pushRange cfg name t
  | rec_popRange => popRange cfg t
  | rec_RecordFunction name => RecordFunction_ctor cfg name t
  | rec_RecordFunction_fn fn_name => RecordFunction_ctor_fn cfg fn_name t
  | rec_RecordFunction_seq name nr ba => RecordFunction_ctor_seq cfg name nr ba t
  | rec_RecordFunction_end => RecordFunction_dtor cfg t
  end.

(** Calls made one after another, each by the thread paired with it. *)
Fixpoint run_recordings (cfg : Config) (cs : list (N * recording_call)) : M unit :=
  match cs with
  | [] => mret tt
  | (t, c) :: rest => run_recording cfg c t ;; run_recordings cfg rest
  end.

Definition is_mark (c : recording_call) : bool :=
  match c with
  | rec_mark _ _ => true
  | _ => false
  end.

(** The event a recording call appends in a sampling state [s], on a thread
    whose id is [tid]. *)
Definition event_of (s : ProfilerState) (tid : Z) (c : recording_call) : Event :=
  let cuda := bool_decide (s = CUDA) in
  match c with
  | rec_mark name include_cuda =>
      {| kind := Mark; name := name; event_thread_id := tid;
         has_cuda := include_cuda && cuda |}
  | rec_pushRange name | rec_RecordFunction name | rec_RecordFunction_fn name =>
      {| kind := PushRange; name := name; event_thread_id := tid; has_cuda := cuda |}
  | rec_RecordFunction_seq name nr ba =>
      {| kind := PushRange; name := sequence_label name nr ba;
         event_thread_id := tid; has_cuda := cuda |}
  | rec_popRange | rec_RecordFunction_end =>
      {| kind := PopRange; name := ""; event_thread_id := tid; has_cuda := cuda |}
  end.

(** The calls of [cs] made by thread [t], in order. *)
Definition calls_of (t : N) (cs : list (N * recording_call)) : list recording_call :=
  (filter (λ tc, tc.1 = t) cs).*2.

(** One profiling session on thread [t]: enable CPU sampling, make the
    calls, disable. *)
Definition session (cfg : Config) (cs : list (N * recording_call)) (t : N)
    : M (list (list Event)) :=
  enableProfiler cfg CPU t ;; run_recordings cfg cs ;; disableProfiler cfg t.

(** The registry and the threads agree: every thread's list exists and is
    registered, no two threads share a list, and the registry lists
    existing lists without repetition. *)
Definition registry_ok (w : World) : Prop :=
  heap_ok w ∧
  (∀ t a, tls_event_list w !! t = Some a → a ∈ all_event_lists w) ∧
  (∀ t1 t2 a, tls_event_list w !! t1 = Some a → tls_event_list w !! t2 = Some a → t1 = t2) ∧
  (∀ a, a ∈ all_event_lists w → is_Some (event_lists w !! a)) ∧
  NoDup (all_event_lists w).

(** What [Function_call] asks of the body it wraps: started in a sampling
    state on a thread that has its list, the body ends with outcome [o],
    keeps the state and the thread's id, and appends to the thread's list
    the events [inner] gives for that state and thread id. *)
Definition body_appends {A : Type} (t : N) (inner : ProfilerState → Z → list Event)
    (body : M A) (o : outcome A) : Prop :=
  ∀ w1, registry_ok w1 → state w1 = CPU ∨ state w1 = CUDA →
    is_Some (tls_event_list w1 !! t) →
    ∃ w2, body w1 = (o, w2) ∧ state w2 = state w1 ∧ registry_ok w2 ∧
          is_Some (tls_event_list w2 !! t) ∧ thread_id t w2 = thread_id t w1 ∧
          thread_events t w2 = thread_events t w1 ++ inner (state w1) (thread_id t w1).


(** In a sampling state the computation [c] returns, appends the events of
    [calls] to thread [t]'s list and makes the external calls [xs]. *)
Definition emits (t : N) (calls : list recording_call) (xs : list external_call)
    (c : M unit) : Prop :=
  ∀ w, registry_ok w → state w = CPU ∨ state w = CUDA →
    ∃ w', c w = (Returns tt, w') ∧ state w' = state w ∧ registry_ok w' ∧
          external_calls w' = external_calls w ++ xs ∧
          thread_events t w'
          = thread_events t w ++ (event_of (state w) (thread_id t w') <$> calls) ∧
          (is_Some (tls_event_list w !! t) →
             is_Some (tls_event_list w' !! t) ∧ thread_id t w' = thread_id t w) ∧
          (calls ≠ [] → is_Some (tls_event_list w' !! t)).

(** A call that keeps [registry_ok]. *)
Definition keeps_registry {A : Type} (c : M A) : Prop :=
  ∀ w, registry_ok w → registry_ok (c w).2.

(** [w'] is [w] after thread [t] recorded one event, [ev] applied to the
    thread's id: the event is appended to [t]'s list, the other threads see
    no change, and the registry and the thread-id counter change only if
    this was [t]'s first use. *)
Definition records (t : N) (ev : Z → Event) (w w' : World) : Prop :=
  state w' = state w ∧ external_calls w' = external_calls w ∧
  registry_ok w' ∧
  is_Some (tls_event_list w' !! t) ∧
  thread_events t w' = thread_events t w ++ [ev (thread_id t w')] ∧
  (∀ t', t' ≠ t →
     thread_events t' w' = thread_events t' w ∧
     tls_event_list w' !! t' = tls_event_list w !! t' ∧
     thread_id t' w' = thread_id t' w) ∧
  (is_Some (tls_event_list w !! t) →
     thread_id t w' = thread_id t w ∧
     all_event_lists w' = all_event_lists w ∧
     next_thread_id w' = next_thread_id w ∧
     tls_event_list w' !! t = tls_event_list w !! t) ∧
  (tls_event_list w !! t = None →
     all_event_lists w' = fresh (dom (event_lists w)) :: all_event_lists w ∧
     next_thread_id w' = to_uint32 (next_thread_id w + 1) ∧
     thread_id t w' = to_int32 (next_thread_id w) ∧
     tls_event_list w' !! t = Some (fresh (dom (event_lists w)))).

End Scopes.

(** ** Concrete nodes and worlds used in the examples below *)

Module Examples.
Import Autograd.

Definition real_edge : Edge := {| function := Some 7%N; input_nr := 0 |}.

(** A node with one input slot (an unused-input placeholder). *)
Definition one_input_node : Function :=
  (add_input_metadata undefined_input (new_Function false 0 [])).2.

(** A node with one output, connected to a consumer. *)
Definition one_output_node : Function := new_Function false 0 [real_edge].

Definition some_variable : Variable_ :=
  {| defined := true; requires_grad := true; var_type := 3; sizes := [2%Z; 5%Z];
     var_device := (-1)%Z; gradient_edge := Edge_default |}.

(** A node holding [2^32 - 1] input descriptors. *)
Definition saturated_node : Function :=
  with_input_metadata (new_Function false 0 [])
    (replicate (N.to_nat 4294967295) InputMetadata_default).

(** [2^32] calls of the placeholder overload. *)
Definition many_inputs : list input_arg :=
  replicate (N.to_nat 4294967296) undefined_input.

Definition mixed_inputs : list input_arg :=
  [from_tensor some_variable; undefined_input; from_type 4 [1%Z] 0%Z].

Definition after_harmless_calls : Function :=
  {| sequence_nr_ := 0; next_edges_ := [Edge_default]; pyobj_ := Some 9%N;
     anomaly_metadata_ := Some false; pre_hooks_ := [1%N]; post_hooks_ := [];
     input_metadata_ := [InputMetadata_default; InputMetadata_of_tensor some_variable] |}.

Definition cpu_build : Profiler.Config :=
  {| Profiler.use_cuda := false; Profiler.device_count := 0;
     Profiler.device_query_error := None |}.
Definition gpu_build : Profiler.Config :=
  {| Profiler.use_cuda := true; Profiler.device_count := 2;
     Profiler.device_query_error := None |}.

(** A CUDA build on a machine where the device query fails. *)
Definition broken_gpu_build : Profiler.Config :=
  {| Profiler.use_cuda := true; Profiler.device_count := 0;
     Profiler.device_query_error := Some "no CUDA-capable device is detected" |}.

(** The world after thread 0 enabled CPU sampling. *)
Definition sampling_cpu_world : Profiler.World :=
  Profiler.api_step cpu_build (Profiler.call_enableProfiler Profiler.CPU) 0%N
    Profiler.initial_world.

Definition undefined_variable : Variable_ :=
  {| defined := false; requires_grad := false; var_type := 0; sizes := [];
     var_device := (-1)%Z; gradient_edge := Edge_default |}.

(** A value bound to node 7, slot 2. *)
Definition bound_variable : Variable_ :=
  set_gradient_edge some_variable {| function := Some 7%N; input_nr := 2 |}.

(** Calls of two threads, interleaved. *)
Definition interleaved_calls : list (N * Scopes.recording_call) :=
  [(0%N, Scopes.rec_pushRange "a"); (1%N, Scopes.rec_mark "m" true);
   (0%N, Scopes.rec_RecordFunction "b"); (0%N, Scopes.rec_RecordFunction_end);
   (1%N, Scopes.rec_RecordFunction_seq "c" 7 (Scopes.set_backward_apply_state true 3));
   (0%N, Scopes.rec_popRange)].



(** The world above after thread 0 has ended: its list stays registered
    but no thread holds it. *)
Definition orphan_world : Profiler.World := Profiler.thread_exit 0%N sampling_cpu_world.

(** A body that records a mark and then fails. *)
Definition failing_body : Profiler.M nat :=
  Profiler.mark cpu_build "inner" true 0%N ;; Profiler.throw "failed".

Definition harmless_calls : list method :=
  [call_add_input_metadata (from_tensor some_variable);
   call_add_next_edge real_edge;
   call_set_next_edge 0 Edge_default;
   call_set_pyobj (Some 9%N);
   call_metadata;
   call_add_pre_hook 1%N;
   call_release_variables].

End Examples.

(** * Properties of the Function node *)

Module FunctionProps.
Import Autograd Examples.

(** ** Machine integers *)

Lemma to_uint32_small (n : N) : (n < uint32_modulus)%N → to_uint32 n = n.
Proof. intros H. unfold to_uint32. by apply N.mod_small. Qed.

Lemma to_uint32_le (n : N) : (to_uint32 n ≤ n)%N.
Proof. unfold to_uint32. apply N.Div0.mod_le. Qed.

Lemma to_uint32_modulus : to_uint32 uint32_modulus = 0%N.
Proof. reflexivity. Qed.

(** ** Input slots *)

Lemma add_input_metadata_fst (a : input_arg) (f : Function) :
  (add_input_metadata a f).1 = num_inputs f.
Proof. by destruct a. Qed.

Lemma add_input_metadata_snd (a : input_arg) (f : Function) :
  input_metadata_ (add_input_metadata a f).2 = input_metadata_ f ++ [descriptor_of a].
Proof. by destruct a. Qed.

Lemma add_input_metadata_next_edges (a : input_arg) (f : Function) :
  next_edges_ (add_input_metadata a f).2 = next_edges_ f.
Proof. by destruct a. Qed.

(** Every call other than [clear_input_metadata] only appends to the
    descriptor sequence. *)
Lemma step_appends (m : method) (f f' : Function) :
  m ≠ call_clear_input_metadata →
  step m f = Some f' →
  ∃ added, input_metadata_ f' = input_metadata_ f ++ added.
Proof.
  intros Hm Hstep. destruct m; simpl in Hstep; simplify_eq.
  - eexists. apply add_input_metadata_snd.
  - unfold set_next_edge in Hstep. case_decide; simplify_eq.
    exists []. by rewrite app_nil_r.
  - exists []. by rewrite app_nil_r.
  - exists []. by rewrite app_nil_r.
  - exists []. by rewrite app_nil_r.
  - exists []. rewrite app_nil_r. unfold metadata. by destruct (anomaly_metadata_ f).
  - exists []. by rewrite app_nil_r.
  - exists []. by rewrite app_nil_r.
  - exists []. by rewrite app_nil_r.
  - exists []. by rewrite app_nil_r.
  - exists []. by rewrite app_nil_r.
  - exists []. by rewrite app_nil_r.
Qed.

Lemma run_appends (ms : list method) (f f' : Function) :
  call_clear_input_metadata ∉ ms →
  run ms f = Some f' →
  ∃ added, input_metadata_ f' = input_metadata_ f ++ added.
Proof.
  revert f. induction ms as [|m ms IH]; intros f Hno Hrun; simpl in Hrun.
  - simplify_eq. exists []. by rewrite app_nil_r.
  - apply not_elem_of_cons in Hno as [Hm Hms].
    destruct (step m f) as [f1|] eqn:Hstep; [|done].
    destruct (step_appends m f f1) as [added1 H1]; [done..|].
    destruct (IH f1 Hms Hrun) as [added2 H2].
    exists (added1 ++ added2). by rewrite H2, H1, app_assoc.
Qed.

(** Calls that never index the edge list always have defined behaviour. *)
Lemma run_defined (ms : list method) (f : Function) :
  (∀ index edge, call_set_next_edge index edge ∉ ms) →
  is_Some (run ms f).
Proof.
  revert f. induction ms as [|m ms IH]; intros f Hno; simpl; [by eexists|].
  assert (is_Some (step m f)) as [f1 Hf1].
  { destruct m; simpl; try by eexists. exfalso. eapply Hno. left. }
  rewrite Hf1. apply IH. intros index edge Hin. eapply Hno. right. exact Hin.
Qed.

(** C2, as the code has it: under every call of the public interface other
    than [clear_input_metadata] the input-descriptor sequence never gets
    shorter, and a slot that holds a descriptor keeps returning it from
    [input_metadata]. *)
Theorem input_slots_stable_without_clear (ms : list method) (f f' : Function) :
  call_clear_input_metadata ∉ ms →
  run ms f = Some f' →
  length (input_metadata_ f) ≤ length (input_metadata_ f') ∧
  ∀ index d, input_metadata f index = Some d → input_metadata f' index = Some d.
Proof.
  intros Hno Hrun. destruct (run_appends ms f f' Hno Hrun) as [added Heq].
  split.
  - rewrite Heq, length_app. lia.
  - intros index d Hd. unfold input_metadata in *. rewrite Heq.
    by apply lookup_app_l_Some.
Qed.

Lemma input_slots_stable_without_clear_witness :
  length (input_metadata_ one_input_node) ≤ length (input_metadata_ after_harmless_calls) ∧
  ∀ index d, input_metadata one_input_node index = Some d →
    input_metadata after_harmless_calls index = Some d.
Proof.
  refine (input_slots_stable_without_clear harmless_calls one_input_node
            after_harmless_calls _ _).
  - unfold harmless_calls. intros Hin.
    repeat (apply elem_of_cons in Hin as [Hin|Hin]; [discriminate|]).
    by apply elem_of_nil in Hin.
  - reflexivity.
Defined.

(** C2, as stated, fails: [clear_input_metadata] is part of the public
    interface and empties the sequence, after which slot 0 is gone. *)
Lemma clear_input_metadata_drops_slots :
  step call_clear_input_metadata one_input_node = Some (clear_input_metadata one_input_node) ∧
  length (input_metadata_ one_input_node) = 1 ∧
  length (input_metadata_ (clear_input_metadata one_input_node)) = 0 ∧
  ¬ (length (input_metadata_ one_input_node)
     ≤ length (input_metadata_ (clear_input_metadata one_input_node))) ∧
  input_metadata one_input_node 0 = Some InputMetadata_default ∧
  input_metadata (clear_input_metadata one_input_node) 0 = None.
Proof. repeat split. simpl. lia. Qed.


(** ** Output edges *)

Lemma num_outputs_le (f : Function) : (num_outputs f ≤ N.of_nat (length (next_edges_ f)))%N.
Proof. apply to_uint32_le. Qed.

Lemma lt_num_outputs_lookup (f : Function) (i : nat) :
  (N.of_nat i < num_outputs f)%N → is_Some (next_edges_ f !! i).
Proof.
  intros Hlt. apply lookup_lt_is_Some. pose proof (num_outputs_le f). lia.
Qed.

(** C3: [should_compute_output(i)] throws "Index out of range" when
    [i >= num_outputs()]; when [i < num_outputs()] it returns whether the
    edge stored at index [i] is valid. *)
Theorem should_compute_output_spec (f : Function) (i : nat) :
  ((num_outputs f ≤ N.of_nat i)%N →
     should_compute_output f i = Throws "Index out of range") ∧
  ((N.of_nat i < num_outputs f)%N →
     ∃ e, next_edges_ f !! i = Some e ∧
          should_compute_output f i = Returns (is_valid e) ∧
          (should_compute_output f i = Returns true ↔ function e ≠ None)).
Proof.
  unfold should_compute_output. split; intros Hi.
  - destruct (N.ltb_spec (N.of_nat i) (num_outputs f)) as [Hlt|Hge]; [lia|done].
  - destruct (lt_num_outputs_lookup f i Hi) as [e He]. exists e.
    destruct (N.ltb_spec (N.of_nat i) (num_outputs f)) as [Hlt|Hge]; [|lia].
    rewrite He. repeat split; try done.
    + intros [= Hv]. unfold is_valid in Hv. by destruct (function e).
    + intros Hf. unfold is_valid. by destruct (function e).
Qed.

Lemma should_compute_output_in_range (f : Function) (i : nat) :
  (N.of_nat i < num_outputs f)%N →
  ∃ b, should_compute_output f i = Returns b.
Proof.
  intros Hi. unfold should_compute_output.
  destruct (lt_num_outputs_lookup f i Hi) as [e ->].
  destruct (N.ltb_spec (N.of_nat i) (num_outputs f)) as [Hlt|Hge]; [by eexists|lia].
Qed.

Lemma range_scan_in_range (f : Function) (i count : nat) :
  (∀ j, i ≤ j < i + count → (N.of_nat j < num_outputs f)%N) →
  ∃ b, range_scan f i count = Returns b ∧
       (b = true ↔ ∃ j, i ≤ j < i + count ∧ should_compute_output f j = Returns true).
Proof.
  revert i. induction count as [|count IH]; intros i Hin; simpl.
  - exists false. split; [done|]. split; [done|]. intros (j & Hj & _). lia.
  - destruct (should_compute_output_in_range f i) as [b Hb]; [apply Hin; lia|].
    rewrite Hb. destruct b.
    + exists true. split; [done|]. split; [|done]. intros _. exists i. split; [lia|done].
    + destruct (IH (S i)) as (b & Hscan & Hiff); [intros j Hj; apply Hin; lia|].
      exists b. split; [done|]. rewrite Hiff. split.
      * intros (j & Hj & Hact). exists j. split; [lia|done].
      * intros (j & Hj & Hact). exists j. split; [|done].
        destruct (decide (j = i)) as [->|]; [congruence|lia].
Qed.

Lemma range_active_in_range (f : Function) (range : IndexRange) :
  (∀ j, range.1 ≤ j < range.2 → (N.of_nat j < num_outputs f)%N) →
  ∃ b, range_active f range = Returns b ∧
       (b = true ↔ ∃ j, range.1 ≤ j < range.2 ∧ should_compute_output f j = Returns true).
Proof.
  intros Hin. unfold range_active.
  destruct (range_scan_in_range f range.1 (range.2 - range.1)) as (b & Hb & Hiff).
  { intros j Hj. apply Hin. lia. }
  exists b. split; [done|]. rewrite Hiff. split.
  - intros (j & Hj & Hact). exists j. split; [lia|done].
  - intros (j & Hj & Hact). exists j. split; [lia|done].
Qed.

(** C4, as the code has it: when every index of every supplied range is
    below [num_outputs()], the bulk overload returns, and returns true
    exactly when some index of some range satisfies the single-index
    predicate. *)
Theorem should_compute_output_ranges_in_range (f : Function) (idxs : list IndexRange) :
  (∀ range j, range ∈ idxs → range.1 ≤ j < range.2 → (N.of_nat j < num_outputs f)%N) →
  ∃ b, should_compute_output_ranges f idxs = Returns b ∧
       (b = true ↔
        ∃ range j, range ∈ idxs ∧ range.1 ≤ j < range.2 ∧
                   should_compute_output f j = Returns true).
Proof.
  unfold should_compute_output_ranges.
  induction idxs as [|range idxs IH]; intros Hin; simpl.
  - exists false. split; [done|]. split; [done|].
    intros (range & j & Hr & _). by apply elem_of_nil in Hr.
  - destruct (range_active_in_range f range) as (b & Hb & Hiff).
    { intros j Hj. eapply Hin; [left|done]. }
    rewrite Hb. destruct b.
    + exists true. split; [done|]. split; [|done]. intros _.
      destruct Hiff as [Hiff _]. destruct (Hiff eq_refl) as (j & Hj & Hact).
      exists range, j. split; [left|done].
    + destruct IH as (b & Hany & Hiff').
      { intros r j Hr Hj. eapply Hin; [right; exact Hr|done]. }
      exists b. split; [done|]. rewrite Hiff'. split.
      * intros (r & j & Hr & Hj & Hact). exists r, j. split; [by right|done].
      * intros (r & j & Hr & Hj & Hact).
        apply elem_of_cons in Hr as [->|Hr].
        -- assert (false = true) as Habs; [|done].
           apply Hiff. exists j. done.
        -- exists r, j. done.
Qed.

Lemma should_compute_output_ranges_in_range_witness :
  ∃ b, should_compute_output_ranges one_output_node [(0, 1); (0, 0); (1, 1)] = Returns b ∧
       (b = true ↔
        ∃ range j, range ∈ [(0, 1); (0, 0); (1, 1)] ∧ range.1 ≤ j < range.2 ∧
                   should_compute_output one_output_node j = Returns true).
Proof.
  refine (should_compute_output_ranges_in_range one_output_node
            [(0, 1); (0, 0); (1, 1)] _).
  intros range j Hr Hj.
  change (num_outputs one_output_node) with 1%N.
  repeat (apply elem_of_cons in Hr as [->|Hr]; [simpl in Hj; lia|]).
  by apply elem_of_nil in Hr.
Defined.

(** The bulk overload is the single-index predicate run over the indices of
    the ranges in order, stopping at the first index that is active or out
    of range. *)
Lemma any_of_app {A : Type} (p : A → outcome bool) (l1 l2 : list A) :
  any_of p (l1 ++ l2)
  = match any_of p l1 with
    | Returns false => any_of p l2
    | other => other
    end.
Proof.
  induction l1 as [|x l1 IH]; simpl; [done|].
  destruct (p x) as [[]| |]; done.
Qed.

Lemma range_scan_any_of (f : Function) (i count : nat) :
  range_scan f i count = any_of (should_compute_output f) (seq i count).
Proof.
  revert i. induction count as [|count IH]; intros i; simpl; [done|].
  destruct (should_compute_output f i) as [[]| |]; [done| |done..]. apply IH.
Qed.

(** X1: the bulk overload gives what [std::any_of] gives for the
    single-index predicate over the indices of the ranges in scan order,
    thrown errors included. *)
Lemma should_compute_output_ranges_scan (f : Function) (idxs : list IndexRange) :
  should_compute_output_ranges f idxs
  = any_of (should_compute_output f) (scan_order idxs).
Proof.
  unfold should_compute_output_ranges, scan_order.
  induction idxs as [|range idxs IH]; simpl; [done|].
  rewrite any_of_app, <- range_scan_any_of, IH. unfold range_active.
  destruct (range_scan f range.1 (range.2 - range.1)) as [[]| |]; done.
Qed.

(** The empty range list and lists of empty ranges give false. *)
Lemma should_compute_output_ranges_empty (f : Function) (idxs : list IndexRange) :
  (∀ range, range ∈ idxs → range.2 ≤ range.1) →
  should_compute_output_ranges f idxs = Returns false.
Proof.
  unfold should_compute_output_ranges.
  induction idxs as [|range idxs IH]; intros Hempty; simpl; [done|].
  unfold range_active at 1.
  replace (range.2 - range.1) with 0 by (specialize (Hempty range ltac:(left)); lia).
  simpl. apply IH. intros r Hr. apply Hempty. by right.
Qed.

(** C4, as stated, fails: index 0 of the second range is active, yet the
    call throws at index 1 of the first range and returns nothing. *)
Lemma should_compute_output_ranges_throws :
  should_compute_output one_output_node 0 = Returns true ∧
  should_compute_output_ranges one_output_node [(1, 2); (0, 1)]
    = Throws "Index out of range" ∧
  should_compute_output_ranges one_output_node [(1, 2); (0, 1)] ≠ Returns true.
Proof. split; [reflexivity|]. split; [reflexivity|]. vm_compute. discriminate. Qed.


(** ** Slot indices returned by [add_input_metadata] *)

Lemma to_uint32_succ (n : N) :
  (to_uint32 n < 4294967295)%N → to_uint32 (n + 1) = (to_uint32 n + 1)%N.
Proof.
  unfold to_uint32, uint32_modulus. intros Hlt.
  rewrite N.Div0.add_mod by done.
  rewrite (N.mod_small 1) by done.
  apply N.mod_small. lia.
Qed.

Lemma num_inputs_after_add (a : input_arg) (f : Function) :
  num_inputs (add_input_metadata a f).2
  = to_uint32 (N.of_nat (length (input_metadata_ f)) + 1).
Proof.
  unfold num_inputs. rewrite add_input_metadata_snd, length_app. simpl.
  f_equal. lia.
Qed.

Lemma add_inputs_app (l1 l2 : list input_arg) (f : Function) :
  add_inputs (l1 ++ l2) f
  = ((add_inputs l1 f).1 ++ (add_inputs l2 (add_inputs l1 f).2).1,
     (add_inputs l2 (add_inputs l1 f).2).2).
Proof.
  revert f. induction l1 as [|a l1 IH]; intros f; simpl.
  - by destruct (add_inputs l2 f).
  - destruct (add_input_metadata a f) as [input_nr f1]. rewrite IH.
    by destruct (add_inputs l1 f1) as [nrs1 f2].
Qed.

Lemma add_inputs_length (args : list input_arg) (f : Function) :
  length (add_inputs args f).1 = length args.
Proof.
  revert f. induction args as [|a args IH]; intros f; simpl; [done|].
  destruct (add_input_metadata a f) as [input_nr f1].
  specialize (IH f1). destruct (add_inputs args f1) as [nrs f2]. simpl in *. lia.
Qed.

Lemma add_inputs_metadata (args : list input_arg) (f : Function) :
  input_metadata_ (add_inputs args f).2 = input_metadata_ f ++ map descriptor_of args.
Proof.
  revert f. induction args as [|a args IH]; intros f; simpl.
  - by rewrite app_nil_r.
  - pose proof (add_input_metadata_snd a f) as Ha.
    destruct (add_input_metadata a f) as [input_nr f1].
    specialize (IH f1). destruct (add_inputs args f1) as [nrs f2]. simpl in *.
    by rewrite IH, Ha, <- app_assoc.
Qed.

(** The [k]-th call returns [num_inputs()] as it was just before that call. *)
Lemma add_inputs_returns (args : list input_arg) (f : Function) (k : nat) (a : input_arg) :
  args !! k = Some a →
  (add_inputs args f).1 !! k = Some (num_inputs (add_inputs (take k args) f).2).
Proof.
  intros Hk.
  rewrite <- (take_drop_middle args k a Hk) at 1.
  rewrite add_inputs_app. cbn [fst].
  assert (length (add_inputs (take k args) f).1 = k) as Hlen.
  { rewrite add_inputs_length, length_take. apply lookup_lt_Some in Hk. lia. }
  rewrite lookup_app_r by lia. rewrite Hlen, Nat.sub_diag. simpl.
  pose proof (add_input_metadata_fst a (add_inputs (take k args) f).2) as Hfst.
  destruct (add_input_metadata a _) as [input_nr f1].
  destruct (add_inputs (drop (S k) args) f1). simpl in *. by rewrite Hfst.
Qed.

(** C9, as the code has it: on a freshly constructed node, [N < 2^32] calls
    of [add_input_metadata] (any mix of the three overloads) leave
    [num_inputs() = N]; the call number [k] returns [k], the number of
    inputs just before it; and slot [k] holds the descriptor that call
    supplied. *)
Theorem add_inputs_spec (anomaly : bool) (sequence_nr : N) (next_edges : list Edge)
    (args : list input_arg) :
  (N.of_nat (length args) < uint32_modulus)%N →
  let node := new_Function anomaly sequence_nr next_edges in
  num_inputs (add_inputs args node).2 = N.of_nat (length args) ∧
  ∀ k a, args !! k = Some a →
    (add_inputs args node).1 !! k = Some (num_inputs (add_inputs (take k args) node).2) ∧
    (add_inputs args node).1 !! k = Some (N.of_nat k) ∧
    input_metadata (add_inputs args node).2 k = Some (descriptor_of a).
Proof.
  intros Hlt node.
  assert (input_metadata_ node = []) as Hfresh by (by destruct anomaly).
  split.
  - unfold num_inputs. rewrite add_inputs_metadata, Hfresh. simpl.
    rewrite length_map. by apply to_uint32_small.
  - intros k a Hk. pose proof (lookup_lt_Some _ _ _ Hk) as Hklt.
    rewrite (add_inputs_returns args node k a Hk).
    repeat split.
    + f_equal. unfold num_inputs. rewrite add_inputs_metadata, Hfresh. simpl.
      rewrite length_map, length_take, Nat.min_l by lia.
      apply to_uint32_small. lia.
    + unfold input_metadata. rewrite add_inputs_metadata, Hfresh. simpl.
      by rewrite list_lookup_fmap, Hk.
Qed.

Lemma add_inputs_spec_witness :
  num_inputs (add_inputs mixed_inputs (new_Function true 4 [real_edge])).2 = 3%N ∧
  ∀ k a, mixed_inputs !! k = Some a →
    (add_inputs mixed_inputs (new_Function true 4 [real_edge])).1 !! k
      = Some (num_inputs (add_inputs (take k mixed_inputs)
                            (new_Function true 4 [real_edge])).2) ∧
    (add_inputs mixed_inputs (new_Function true 4 [real_edge])).1 !! k = Some (N.of_nat k) ∧
    input_metadata (add_inputs mixed_inputs (new_Function true 4 [real_edge])).2 k
      = Some (descriptor_of a).
Proof.
  refine (add_inputs_spec true 4 [real_edge] mixed_inputs _).
  vm_compute. reflexivity.
Defined.

(** C9, as stated, fails for [N = 2^32]: [num_inputs()] is a [uint32_t] and
    reads 0 after that many calls. *)
Lemma add_inputs_wraps :
  N.of_nat (length many_inputs) = 4294967296%N ∧
  num_inputs (add_inputs many_inputs (new_Function false 0 [])).2 = 0%N ∧
  num_inputs (add_inputs many_inputs (new_Function false 0 [])).2
    ≠ N.of_nat (length many_inputs).
Proof.
  assert (N.of_nat (length many_inputs) = 4294967296%N) as Hcalls.
  { unfold many_inputs. by rewrite length_replicate, N2Nat.id. }
  assert (num_inputs (add_inputs many_inputs (new_Function false 0 [])).2 = 0%N)
    as Hafter.
  { unfold num_inputs, many_inputs.
    rewrite add_inputs_metadata, length_app, length_map, length_replicate.
    rewrite Nat2N.inj_add, N2Nat.id. reflexivity. }
  split; [done|]. split; [done|]. by rewrite Hafter, Hcalls.
Qed.

(** ** Gradient edges *)

(** C8, as the code has it: unless the node already reports [2^32 - 1]
    inputs, [create_gradient_edge(value, node)] raises [node.num_inputs()]
    by exactly one, and the value's gradient edge becomes [(node, s)] with
    [s] the value of [num_inputs()] before the call. *)
Theorem create_gradient_edge_spec (variable : Variable_) (fn : N)
    (nodes : gmap N Function) (f : Function) :
  nodes !! fn = Some f →
  (num_inputs f < 4294967295)%N →
  ∃ variable' f',
    create_gradient_edge variable fn nodes = Some (variable', <[fn := f']> nodes) ∧
    num_inputs f' = (num_inputs f + 1)%N ∧
    gradient_edge variable' = {| function := Some fn; input_nr := num_inputs f |}.
Proof.
  intros Hf Hlt. unfold create_gradient_edge. rewrite Hf. simpl.
  eexists _, _. split; [reflexivity|]. split; [|done].
  change (num_inputs (add_input_metadata (from_tensor variable) f).2
          = (num_inputs f + 1)%N).
  rewrite num_inputs_after_add. by apply to_uint32_succ.
Qed.

Lemma create_gradient_edge_spec_witness :
  ∃ variable' f',
    create_gradient_edge some_variable 5%N {[5%N := one_input_node]}
      = Some (variable', <[5%N := f']> {[5%N := one_input_node]}) ∧
    num_inputs f' = (num_inputs one_input_node + 1)%N ∧
    gradient_edge variable' = {| function := Some 5%N; input_nr := num_inputs one_input_node |}.
Proof.
  refine (create_gradient_edge_spec some_variable 5%N {[5%N := one_input_node]}
            one_input_node _ _).
  - apply lookup_singleton_eq.
  - vm_compute. reflexivity.
Defined.

Lemma saturated_node_length :
  length (input_metadata_ saturated_node) = N.to_nat 4294967295.
Proof.
  unfold saturated_node, with_input_metadata. cbn [input_metadata_].
  apply length_replicate.
Qed.

(** C8, as stated, fails on a node with [2^32 - 1] inputs: after the call
    [num_inputs()] reads 0, not [2^32]. *)
Lemma create_gradient_edge_wraps :
  num_inputs saturated_node = 4294967295%N ∧
  ∃ variable' f',
    create_gradient_edge some_variable 5%N {[5%N := saturated_node]}
      = Some (variable', {[5%N := f']}) ∧
    num_inputs f' = 0%N ∧
    num_inputs f' ≠ (num_inputs saturated_node + 1)%N.
Proof.
  assert (num_inputs saturated_node = 4294967295%N) as Hbefore.
  { unfold num_inputs. by rewrite saturated_node_length, N2Nat.id. }
  split; [done|].
  unfold create_gradient_edge. rewrite lookup_singleton_eq.
  unfold add_input_metadata_tensor. rewrite insert_singleton_eq.
  eexists _, _. split; [reflexivity|].
  rewrite Hbefore.
  unfold num_inputs, with_input_metadata. cbn [input_metadata_].
  rewrite length_app, saturated_node_length.
  rewrite Nat2N.inj_add, N2Nat.id. split; [reflexivity|done].
Qed.

(** ** Collecting next edges *)

Lemma MakeNextFunctionList_foldl (vs : list Variable_) (make : MakeNextFunctionList) :
  foldl MakeNextFunctionList_call make vs
  = {| next_edges := next_edges make
                     ++ map (λ v, if defined v then gradient_edge v else Edge_default) vs;
       examined := examined make ++ vs |}.
Proof.
  revert make. induction vs as [|v vs IH]; intros make; simpl.
  - rewrite !app_nil_r. by destruct make.
  - rewrite IH. unfold MakeNextFunctionList_call.
    destruct (defined v); simpl; by rewrite <- !app_assoc.
Qed.

(** C5: with gradient tracking disabled, [collect_next_edges] returns the
    empty edge list and examines none of its inputs. *)
Theorem collect_next_edges_disabled (args : list argument) :
  collect_next_edges false args = ([], []).
Proof. reflexivity. Qed.

(** C6: with gradient tracking enabled, [collect_next_edges] returns one
    edge per flattened input value, in encounter order: the value's gradient
    edge when it is defined, the invalid placeholder edge when it is not. *)
Theorem collect_next_edges_enabled (args : list argument) :
  let values := flatten_arguments args in
  let edges := (collect_next_edges true args).1 in
  length edges = length values ∧
  (∀ i v, values !! i = Some v →
     (defined v = true → edges !! i = Some (gradient_edge v)) ∧
     (defined v = false → edges !! i = Some Edge_default)) ∧
  is_valid Edge_default = false ∧
  (collect_next_edges true args).2 = values.
Proof.
  intros values edges. subst edges. unfold collect_next_edges. simpl.
  unfold MakeNextFunctionList_apply. rewrite MakeNextFunctionList_foldl. simpl.
  fold values. split; [by rewrite length_map|]. split; [|done].
  intros i v Hv. split.
  - intros Hdef. rewrite list_lookup_fmap, Hv. simpl. by rewrite Hdef.
  - intros Hdef. rewrite list_lookup_fmap, Hv. simpl. by rewrite Hdef.
Qed.

End FunctionProps.

(** * Properties of the profiler *)

Module ProfilerProps.
Import Profiler Examples.

Lemma bind_unfold {A B : Type} (c : M A) (k : A → M B) (w : World) :
  (c ≫= k) w = match c w with
               | (Returns a, w') => k a w'
               | (Throws what, w') => (Throws what, w')
               | (Undefined, w') => (Undefined, w')
               end.
Proof. reflexivity. Qed.

(** ** Recording while disabled *)

Lemma pushRange_disabled (cfg : Config) (name : string) (t : N) (w : World) :
  state w = Disabled → pushRange cfg name t w = (Returns tt, w).
Proof.
  intros Hs. unfold pushRange. rewrite bind_unfold. simpl. rewrite Hs. done.
Qed.

Lemma popRange_disabled (cfg : Config) (t : N) (w : World) :
  state w = Disabled → popRange cfg t w = (Returns tt, w).
Proof.
  intros Hs. unfold popRange. rewrite bind_unfold. simpl. rewrite Hs. done.
Qed.

(** C1 does not hold for [mark]: it has no [Disabled] check, so on a
    thread's first use while the profiler is disabled it creates and
    registers the thread's list, advances the thread-id counter and appends
    a Mark event. *)
Theorem mark_while_disabled_records :
  state initial_world = Disabled ∧
  (mark cpu_build "x" true 0%N initial_world).1 = Returns tt ∧
  thread_events 0%N initial_world = [] ∧
  thread_events 0%N (mark cpu_build "x" true 0%N initial_world).2
    = [ {| kind := Mark; name := "x"; event_thread_id := 0; has_cuda := false |} ] ∧
  all_event_lists initial_world = [] ∧
  all_event_lists (mark cpu_build "x" true 0%N initial_world).2 = [0%N] ∧
  next_thread_id initial_world = 0%N ∧
  next_thread_id (mark cpu_build "x" true 0%N initial_world).2 = 1%N.
Proof. vm_compute. repeat split. Qed.


(** ** Misuse of enable / disable *)

(** C7: [disableProfiler] while already disabled throws, and
    [enableProfiler] with an active state other than the currently active
    one throws; either way nothing of the profiler's state has changed. *)
Theorem profiler_misuse_throws (cfg : Config) (t : N) (w : World)
    (new_state : ProfilerState) :
  (state w = Disabled →
     disableProfiler cfg t w
     = (Throws "can't disable profiler when it's not running", w)) ∧
  (state w ≠ Disabled → new_state ≠ Disabled → new_state ≠ state w →
     ∃ what, enableProfiler cfg new_state t w = (Throws what, w) ∧
       what = if negb (use_cuda cfg) && bool_decide (new_state = NVTX)
              then "Can't use NVTX profiler - PyTorch was compiled without CUDA"
              else "can't change kind of profiling (e.g. NVTX to CPU) while profiler is running").
Proof.
  split.
  - intros Hs. unfold disableProfiler. rewrite bind_unfold. simpl. rewrite Hs. done.
  - intros Hs Hnew Hne. unfold enableProfiler.
    destruct (decide (new_state = Disabled)) as [|_]; [done|].
    destruct (negb (use_cuda cfg) && bool_decide (new_state = NVTX)); [by eexists|].
    rewrite bind_unfold. simpl.
    rewrite (bool_decide_eq_true_2 _ Hs), (bool_decide_eq_true_2 _ Hne). simpl.
    by eexists.
Qed.

Example disableProfiler_twice :
  disableProfiler cpu_build 0%N (disableProfiler cpu_build 0%N sampling_cpu_world).2
  = (Throws "can't disable profiler when it's not running",
     (disableProfiler cpu_build 0%N sampling_cpu_world).2).
Proof. vm_compute. reflexivity. Qed.

Example enableProfiler_other_backend :
  state sampling_cpu_world = CPU ∧
  enableProfiler gpu_build CUDA 0%N sampling_cpu_world
  = (Throws "can't change kind of profiling (e.g. NVTX to CPU) while profiler is running",
     sampling_cpu_world).
Proof. vm_compute. split; reflexivity. Qed.

(** ** The store stays well formed *)



Lemma keeps_throw {A : Type} (what : string) : keeps (throw what : M A).
Proof. intros w Hw. done. Qed.

Lemma keeps_get_state : keeps get_state.
Proof. intros w Hw. done. Qed.

Lemma keeps_external (c : external_call) : keeps (external c).
Proof. intros w Hw. done. Qed.

Lemma keeps_bind {A B : Type} (c : M A) (k : A → M B) :
  keeps c → (∀ a, keeps (k a)) → keeps (c ≫= k).
Proof.
  intros Hc Hk w Hw. rewrite bind_unfold.
  destruct (Hc w Hw) as [Hh Hs]. destruct (c w) as [[a|what|] w1]; simpl in *; [|done..].
  destruct (Hk a w1 Hh) as [Hh' Hs']. split; [done|congruence].
Qed.



Lemma keeps_getEventList (t : N) : keeps (getEventList t).
Proof.
  intros w Hw. unfold getEventList.
  destruct (tls_event_list w !! t) as [a|] eqn:Ht; simpl; [done|].
  split; [|done]. intros t' a' Ht'. simpl in *.
  apply lookup_insert_is_Some.
  destruct (decide (fresh (dom (event_lists w)) = a')) as [|Hne]; [by left|right].
  split; [done|]. apply (Hw t').
  rewrite lookup_insert in Ht'. case_decide; simplify_eq. done.
Qed.

Lemma keeps_record (a : N) (k : EventKind) (name : string) (t : N) (cuda : bool) :
  keeps (record a k name t cuda).
Proof.
  intros w Hw. split; [|done]. intros t' a' Ht'. simpl in *.
  destruct (Hw t' a' Ht') as [l Hl].
  destruct (decide (a = a')) as [->|Hne].
  - rewrite lookup_alter_eq, Hl. by eexists.
  - rewrite lookup_alter_ne by done. by eexists.
Qed.

Lemma keeps_mark (cfg : Config) (name : string) (include_cuda : bool) (t : N) :
  keeps (mark cfg name include_cuda t).
Proof.
  unfold mark. apply keeps_bind; [apply keeps_get_state|]. intros s.
  case_decide.
  - destruct (use_cuda cfg); [apply keeps_external|apply keeps_throw].
  - apply keeps_bind; [apply keeps_getEventList|]. intros a.
    apply keeps_bind; [apply keeps_get_state|]. intros s'. apply keeps_record.
Qed.







Lemma not_held_by_any_thread (a : N) (w : World) :
  use_count a w = 1 → ∀ t, tls_event_list w !! t ≠ Some a.
Proof.
  unfold use_count. intros Hcount t Ht.
  assert (filter (λ kv : N * N, kv.2 = a) (tls_event_list w) !! t = Some a) as Hin.
  { by apply map_lookup_filter_Some. }
  assert (size (filter (λ kv : N * N, kv.2 = a) (tls_event_list w)) = 0) as Hsize by lia.
  apply map_size_empty_inv in Hsize. rewrite Hsize in Hin. done.
Qed.

Lemma consolidate_all_heap_ok (w : World) (registry : list N)
    (store : gmap N (list Event)) :
  (∀ t a, tls_event_list w !! t = Some a → is_Some (store !! a)) →
  ∀ t a, tls_event_list w !! t = Some a →
         is_Some ((consolidate_all w registry store).2 !! a).
Proof.
  revert store. induction registry as [|a0 registry IH]; intros store Hstore; simpl.
  - done.
  - case_decide as Hcount.
    + specialize (IH (delete a0 store)).
      destruct (consolidate_all w registry (delete a0 store)) as [[result kept] store'].
      simpl in *. apply IH. intros t a Ht.
      rewrite lookup_delete_ne; [by eapply Hstore|].
      intros ->. by eapply not_held_by_any_thread.
    + specialize (IH (<[a0 := []]> store)).
      destruct (consolidate_all w registry (<[a0 := []]> store)) as [[result kept] store'].
      simpl in *. apply IH. intros t a Ht.
      apply lookup_insert_is_Some. destruct (decide (a0 = a)); [by left|right].
      split; [done|]. by eapply Hstore.
Qed.







(** ** Marks append to the calling thread's list *)

Lemma mark_records (cfg : Config) (name : string) (include_cuda : bool) (t : N)
    (w : World) :
  state w ≠ NVTX → heap_ok w →
  ∃ w', mark cfg name include_cuda t w = (Returns tt, w') ∧
        state w' = state w ∧ heap_ok w' ∧
        external_calls w' = external_calls w ∧
        thread_events t w' = thread_events t w ++
          [ {| kind := Mark; name := name; event_thread_id := thread_id t w';
               has_cuda := include_cuda && bool_decide (state w = CUDA) |} ].
Proof.
  intros Hs Hh. destruct (keeps_mark cfg name include_cuda t w Hh) as [Hh' Hs'].
  revert Hh' Hs'. unfold mark. rewrite bind_unfold. cbn [get_state].
  case_decide; [done|]. rewrite bind_unfold. unfold getEventList.
  destruct (tls_event_list w !! t) as [a|] eqn:Ht.
  - rewrite bind_unfold. cbn [get_state]. unfold record. intros Hh' Hs'.
    eexists. split; [reflexivity|]. repeat split; [done..|].
    unfold thread_events, thread_id. simpl. rewrite Ht, lookup_alter_eq.
    destruct (Hh t a Ht) as [l ->]. done.
  - rewrite bind_unfold. cbn [get_state]. unfold record. intros Hh' Hs'.
    eexists. split; [reflexivity|]. repeat split; [done..|].
    unfold thread_events, thread_id. simpl.
    rewrite Ht, !lookup_insert_eq, lookup_alter_eq, lookup_insert_eq. done.
Qed.

Lemma appends_mark (cfg : Config) (name : string) (include_cuda : bool) (t : N) :
  appends t (mark cfg name include_cuda t).
Proof.
  intros w Hs Hh.
  destruct (mark_records cfg name include_cuda t w Hs Hh) as (w' & H1 & H2 & H3 & _ & H4).
  by eexists w', _.
Qed.

Lemma appends_mret (t : N) : appends t (mret tt).
Proof. intros w Hs Hh. exists w, []. by rewrite app_nil_r. Qed.

Lemma appends_external (t : N) (c : external_call) : appends t (external c).
Proof.
  intros w Hs Hh. exists (with_external_call w c), []. by rewrite app_nil_r.
Qed.

Lemma appends_bind (t : N) (c k : M unit) :
  appends t c → appends t k → appends t (c ;; k).
Proof.
  intros Hc Hk w Hs Hh. rewrite bind_unfold.
  destruct (Hc w Hs Hh) as (w1 & evs1 & -> & Hs1 & Hh1 & He1).
  destruct (Hk w1) as (w2 & evs2 & -> & Hs2 & Hh2 & He2); [congruence|done|].
  exists w2, (evs1 ++ evs2). repeat split; [congruence|done|].
  by rewrite He2, He1, app_assoc.
Qed.

Lemma appends_for_loop (t : N) (i count : nat) (body : nat → M unit) :
  (∀ j, appends t (body j)) → appends t (for_loop i count body).
Proof.
  intros Hbody. revert i. induction count as [|count IH]; intros i; simpl.
  - apply appends_mret.
  - apply appends_bind; [apply Hbody|apply IH].
Qed.

(** ** Re-enabling with the active state *)

Lemma appends_onEachDevice (cfg : Config) (t : N) (op : nat → M unit) :
  device_query_error cfg = None →
  (∀ j, appends t (op j)) → appends t (onEachDevice cfg op).
Proof.
  intros Hq Hop. unfold onEachDevice. rewrite Hq. by apply appends_for_loop.
Qed.

(** The device marks of [enableProfiler], where the device query succeeds
    if it is made. *)
Lemma enable_marks_append (cfg : Config) (s : ProfilerState) (t : N) :
  (use_cuda cfg = true → s = CUDA → device_query_error cfg = None) →
  appends t
    (if use_cuda cfg && bool_decide (s = CUDA) then
       for_loop 0 5 (λ _,
         onEachDevice cfg (λ d,
           mark cfg "__cuda_startup" true t ;;
           external (cudaDeviceSynchronize d))) ;;
       onEachDevice cfg (λ d, mark cfg "__cuda_start_event" true t)
     else mret tt).
Proof.
  intros Hquery. destruct (use_cuda cfg) eqn:Hcuda; [|apply appends_mret].
  destruct (decide (s = CUDA)) as [Hs|Hs].
  - rewrite bool_decide_eq_true_2 by done. cbn [andb].
    pose proof (Hquery eq_refl Hs) as Hq.
    apply appends_bind.
    + apply appends_for_loop. intros _. apply appends_onEachDevice; [done|]. intros d.
      apply appends_bind; [apply appends_mark|apply appends_external].
    + apply appends_onEachDevice; [done|]. intros d. apply appends_mark.
  - rewrite bool_decide_eq_false_2 by done. apply appends_mret.
Qed.




Example enableProfiler_twice :
  thread_events 0%N
    (enableProfiler cpu_build CPU 0%N sampling_cpu_world).2
  = [ {| kind := Mark; name := "__start_profile"; event_thread_id := 0; has_cuda := false |};
      {| kind := Mark; name := "__start_profile"; event_thread_id := 0; has_cuda := false |} ].
Proof. vm_compute. reflexivity. Qed.

End ProfilerProps.

(** * The registry of event lists *)

Module RegistryProps.
Import Profiler Scopes Examples ProfilerProps.

Ltac membership :=
  exfalso;
  repeat match goal with
         | H : _ ∈ _ :: _ |- _ => apply elem_of_cons in H as [?|?]
         | H : _ ∉ _ :: _ |- _ => apply not_elem_of_cons in H as [? ?]
         end;
  subst; done.

Lemma fresh_list_unused (w : World) :
  event_lists w !! fresh (dom (event_lists w)) = None.
Proof. apply not_elem_of_dom, is_fresh. Qed.

Lemma keeps_registry_mret {A : Type} (a : A) : keeps_registry (mret a : M A).
Proof. intros w Hw. done. Qed.

Lemma keeps_registry_throw {A : Type} (what : string) : keeps_registry (throw what : M A).
Proof. intros w Hw. done. Qed.

Lemma keeps_registry_get_state : keeps_registry get_state.
Proof. intros w Hw. done. Qed.

Lemma keeps_registry_set_state (s : ProfilerState) : keeps_registry (set_state s).
Proof. intros w Hw. done. Qed.

Lemma keeps_registry_external (c : external_call) : keeps_registry (external c).
Proof. intros w Hw. done. Qed.

Lemma keeps_registry_bind {A B : Type} (c : M A) (k : A → M B) :
  keeps_registry c → (∀ a, keeps_registry (k a)) → keeps_registry (c ≫= k).
Proof.
  intros Hc Hk w Hw. rewrite bind_unfold. specialize (Hc w Hw).
  destruct (c w) as [[a|what|] w1]; simpl in *; [|done..]. by apply Hk.
Qed.

Lemma keeps_registry_for_loop (i count : nat) (body : nat → M unit) :
  (∀ j, keeps_registry (body j)) → keeps_registry (for_loop i count body).
Proof.
  intros Hbody. revert i. induction count as [|count IH]; intros i; simpl.
  - apply keeps_registry_mret.
  - apply keeps_registry_bind; [apply Hbody|]. intros _. apply IH.
Qed.

Lemma keeps_registry_onEachDevice (cfg : Config) (op : nat → M unit) :
  (∀ j, keeps_registry (op j)) → keeps_registry (onEachDevice cfg op).
Proof.
  intros Hop. unfold onEachDevice.
  destruct (device_query_error cfg);
    [apply keeps_registry_throw|by apply keeps_registry_for_loop].
Qed.

Lemma keeps_registry_getEventList (t : N) : keeps_registry (getEventList t).
Proof.
  intros w (Hh & Hreg & Hinj & Hsub & Hnd). unfold getEventList.
  destruct (tls_event_list w !! t) as [a0|] eqn:Ht; simpl; [done|].
  pose proof (fresh_list_unused w) as Hfresh.
  set (a := fresh (dom (event_lists w))) in *.
  assert (∀ t', tls_event_list w !! t' ≠ Some a) as Hnot.
  { intros t' Ht'. destruct (Hh t' a Ht') as [l Hl]. congruence. }
  repeat split; simpl.
  - intros t' a' Ht'. simpl in *. rewrite lookup_insert in Ht'.
    apply lookup_insert_is_Some'. case_decide; simplify_eq; [by left|right].
    by eapply Hh.
  - intros t' a' Ht'. rewrite lookup_insert in Ht'.
    case_decide; simplify_eq; [left|right]. by eapply Hreg.
  - intros t1 t2 a' H1 H2. rewrite lookup_insert in H1, H2.
    repeat case_decide; simplify_eq; try done;
      try (by exfalso; eapply Hnot); by eapply Hinj.
  - intros a' Ha'. apply lookup_insert_is_Some'.
    apply elem_of_cons in Ha' as [->|Ha']; [by left|right]. by apply Hsub.
  - apply NoDup_cons. split; [|done]. intros Hin.
    destruct (Hsub a Hin) as [l Hl]. congruence.
Qed.

Lemma keeps_registry_record (a : N) (k : EventKind) (name : string) (t : N)
    (cuda : bool) : keeps_registry (record a k name t cuda).
Proof.
  intros w (Hh & Hreg & Hinj & Hsub & Hnd). repeat split; simpl; try done.
  - intros t' a' Ht'. simpl in *. apply lookup_alter_is_Some. by eapply Hh.
  - intros a' Ha'. apply lookup_alter_is_Some. by apply Hsub.
Qed.

Lemma keeps_registry_mark (cfg : Config) (name : string) (include_cuda : bool) (t : N) :
  keeps_registry (mark cfg name include_cuda t).
Proof.
  unfold mark. apply keeps_registry_bind; [apply keeps_registry_get_state|]. intros s.
  case_decide.
  - destruct (use_cuda cfg); [apply keeps_registry_external|apply keeps_registry_throw].
  - apply keeps_registry_bind; [apply keeps_registry_getEventList|]. intros a.
    apply keeps_registry_bind; [apply keeps_registry_get_state|]. intros s'.
    apply keeps_registry_record.
Qed.

Lemma keeps_registry_pushRange (cfg : Config) (name : string) (t : N) :
  keeps_registry (pushRange cfg name t).
Proof.
  unfold pushRange. apply keeps_registry_bind; [apply keeps_registry_get_state|].
  intros s. repeat case_decide.
  - apply keeps_registry_mret.
  - destruct (use_cuda cfg); [apply keeps_registry_external|apply keeps_registry_throw].
  - apply keeps_registry_bind; [apply keeps_registry_getEventList|]. intros a.
    apply keeps_registry_bind; [apply keeps_registry_get_state|]. intros s'.
    apply keeps_registry_record.
Qed.

Lemma keeps_registry_popRange (cfg : Config) (t : N) : keeps_registry (popRange cfg t).
Proof.
  unfold popRange. apply keeps_registry_bind; [apply keeps_registry_get_state|].
  intros s. repeat case_decide.
  - apply keeps_registry_mret.
  - destruct (use_cuda cfg); [apply keeps_registry_external|apply keeps_registry_throw].
  - apply keeps_registry_bind; [apply keeps_registry_getEventList|]. intros a.
    apply keeps_registry_bind; [apply keeps_registry_get_state|]. intros s'.
    apply keeps_registry_record.
Qed.

Lemma keeps_registry_run_recording (cfg : Config) (c : recording_call) (t : N) :
  keeps_registry (run_recording cfg c t).
Proof.
  destruct c; simpl.
  - apply keeps_registry_mark.
  - apply keeps_registry_pushRange.
  - apply keeps_registry_popRange.
  - unfold RecordFunction_ctor. apply keeps_registry_bind; [apply keeps_registry_get_state|].
    intros s. case_decide; [apply keeps_registry_mret|apply keeps_registry_pushRange].
  - unfold RecordFunction_ctor_fn. apply keeps_registry_bind; [apply keeps_registry_get_state|].
    intros s. case_decide; [apply keeps_registry_mret|apply keeps_registry_pushRange].
  - unfold RecordFunction_ctor_seq. apply keeps_registry_bind; [apply keeps_registry_get_state|].
    intros s. case_decide; [apply keeps_registry_mret|apply keeps_registry_pushRange].
  - unfold RecordFunction_dtor. apply keeps_registry_bind; [apply keeps_registry_get_state|].
    intros s. case_decide; [apply keeps_registry_mret|apply keeps_registry_popRange].
Qed.

Lemma keeps_registry_enableProfiler (cfg : Config) (new_state : ProfilerState) (t : N) :
  keeps_registry (enableProfiler cfg new_state t).
Proof.
  unfold enableProfiler. case_decide; [apply keeps_registry_throw|].
  destruct (negb (use_cuda cfg) && bool_decide (new_state = NVTX));
    [apply keeps_registry_throw|].
  apply keeps_registry_bind; [apply keeps_registry_get_state|]. intros s.
  destruct (bool_decide (s ≠ Disabled) && bool_decide (new_state ≠ s));
    [apply keeps_registry_throw|].
  apply keeps_registry_bind; [apply keeps_registry_set_state|]. intros _.
  apply keeps_registry_bind; [|intros _; apply keeps_registry_mark].
  destruct (use_cuda cfg && bool_decide (new_state = CUDA)); [|apply keeps_registry_mret].
  apply keeps_registry_bind.
  - apply keeps_registry_for_loop. intros _. apply keeps_registry_onEachDevice. intros d.
    apply keeps_registry_bind; [apply keeps_registry_mark|]. intros _.
    apply keeps_registry_external.
  - intros _. apply keeps_registry_onEachDevice. intros d. apply keeps_registry_mark.
Qed.

(** ** What the loop of [disableProfiler] computes *)

Lemma consolidate_all_kept (w : World) (registry : list N) (store : gmap N (list Event)) :
  (consolidate_all w registry store).1.2
  = filter (λ a, use_count a w ≠ 1) registry.
Proof.
  revert store. induction registry as [|a registry IH]; intros store; simpl; [done|].
  case_decide as Hcount.
  - specialize (IH (delete a store)).
    destruct (consolidate_all w registry (delete a store)) as [[result kept] store'].
    simpl in *. rewrite filter_cons_False by (intros Hne; by apply Hne). done.
  - specialize (IH (<[a := []]> store)).
    destruct (consolidate_all w registry (<[a := []]> store)) as [[result kept] store'].
    simpl in *. rewrite filter_cons_True by done. by rewrite IH.
Qed.

Lemma consolidate_all_store (w : World) (registry : list N) (store : gmap N (list Event))
    (a : N) :
  (consolidate_all w registry store).2 !! a
  = if decide (a ∈ registry)
    then if decide (use_count a w = 1) then None else Some []
    else store !! a.
Proof.
  revert store. induction registry as [|a0 registry IH]; intros store.
  - destruct (decide (a ∈ [])) as [Hin|_]; [by apply elem_of_nil in Hin|done].
  - cbn [consolidate_all].
    destruct (decide (use_count a0 w = 1)) as [Hcount|Hcount].
    + specialize (IH (delete a0 store)).
      destruct (consolidate_all w registry (delete a0 store)) as [[result kept] store'].
      simpl in *. rewrite IH. destruct (decide (a = a0)) as [->|Hne].
      * rewrite lookup_delete_eq.
        repeat case_decide; first [done | contradiction | membership].
      * rewrite lookup_delete_ne by done.
        repeat case_decide; first [done | contradiction | membership].
    + specialize (IH (<[a0 := []]> store)).
      destruct (consolidate_all w registry (<[a0 := []]> store)) as [[result kept] store'].
      simpl in *. rewrite IH. destruct (decide (a = a0)) as [->|Hne].
      * rewrite lookup_insert_eq.
        repeat case_decide; first [done | contradiction | membership].
      * rewrite lookup_insert_ne by done.
        repeat case_decide; first [done | contradiction | membership].
Qed.

Lemma consolidate_all_result (w : World) (registry : list N)
    (store : gmap N (list Event)) :
  NoDup registry →
  (consolidate_all w registry store).1.1
  = (λ a, default [] (store !! a)) <$> registry.
Proof.
  revert store. induction registry as [|a registry IH]; intros store Hnd; simpl; [done|].
  apply NoDup_cons in Hnd as [Hnotin Hnd].
  assert (∀ store1 : gmap N (list Event),
            (∀ a', a' ≠ a → store1 !! a' = store !! a') →
            (λ a', default [] (store1 !! a')) <$> registry
            = (λ a', default [] (store !! a')) <$> registry) as Hsame.
  { intros store1 Hstore1. apply list_fmap_ext. intros i a' Hi. simpl.
    rewrite Hstore1; [done|]. intros ->. apply Hnotin.
    by eapply list_elem_of_lookup_2. }
  case_decide as Hcount.
  - specialize (IH (delete a store) Hnd).
    destruct (consolidate_all w registry (delete a store)) as [[result kept] store'].
    simpl in *. rewrite IH. f_equal. apply Hsame.
    intros a' Hne. by rewrite lookup_delete_ne.
  - specialize (IH (<[a := []]> store) Hnd).
    destruct (consolidate_all w registry (<[a := []]> store)) as [[result kept] store'].
    simpl in *. rewrite IH. f_equal. apply Hsame.
    intros a' Hne. by rewrite lookup_insert_ne.
Qed.

Lemma held_iff_use_count (a : N) (w : World) :
  use_count a w ≠ 1 ↔ ∃ t, tls_event_list w !! t = Some a.
Proof.
  unfold use_count. split.
  - intros Hcount.
    destruct (map_choose (filter (λ kv : N * N, kv.2 = a) (tls_event_list w)))
      as (t & a' & Hta).
    + intros Hempty. rewrite Hempty, map_size_empty in Hcount. done.
    + apply map_lookup_filter_Some in Hta as [Hta Ha]. simpl in Ha. subst. eauto.
  - intros [t Ht] Hone. by eapply (not_held_by_any_thread a w).
Qed.

Lemma consolidate_all_registry_ok (w : World) :
  registry_ok w →
  registry_ok
    (with_registry w
       (consolidate_all w (all_event_lists w) (event_lists w)).1.2
       (consolidate_all w (all_event_lists w) (event_lists w)).2).
Proof.
  intros (Hh & Hreg & Hinj & Hsub & Hnd). rewrite consolidate_all_kept.
  repeat split; simpl.
  - intros t a Ht. simpl in *. by eapply consolidate_all_heap_ok.
  - intros t a Ht. apply list_elem_of_filter. split; [|by eapply Hreg].
    apply held_iff_use_count. eauto.
  - done.
  - intros a Ha. apply list_elem_of_filter in Ha as [Hheld Ha].
    rewrite consolidate_all_store, decide_True, decide_False by done. by eexists.
  - by apply NoDup_filter.
Qed.

(** [disableProfiler] in a sampling state, step by step. *)
Lemma disableProfiler_sampling (cfg : Config) (t : N) (w : World) :
  heap_ok w → state w ≠ Disabled → state w ≠ NVTX →
  ∃ w1, mark cfg "__stop_profile" true t w = (Returns tt, w1) ∧
    disableProfiler cfg t w
    = (Returns (consolidate_all (with_state w1 Disabled) (all_event_lists w1)
                  (event_lists w1)).1.1,
       with_registry (with_state w1 Disabled)
         (consolidate_all (with_state w1 Disabled) (all_event_lists w1)
            (event_lists w1)).1.2
         (consolidate_all (with_state w1 Disabled) (all_event_lists w1)
            (event_lists w1)).2).
Proof.
  intros Hh Hd Hn.
  destruct (mark_records cfg "__stop_profile" true t w Hn Hh) as (w1 & Hmark & _).
  exists w1. split; [done|].
  unfold disableProfiler. rewrite bind_unfold. cbn [get_state].
  rewrite decide_False by done. rewrite bind_unfold, Hmark, bind_unfold.
  cbn [set_state]. rewrite decide_False by done.
  change (all_event_lists (with_state w1 Disabled)) with (all_event_lists w1).
  change (event_lists (with_state w1 Disabled)) with (event_lists w1).
  by destruct (consolidate_all (with_state w1 Disabled) (all_event_lists w1)
                 (event_lists w1)) as [[result kept] store].
Qed.

Lemma keeps_registry_disableProfiler (cfg : Config) (t : N) :
  keeps_registry (disableProfiler cfg t).
Proof.
  intros w Hw. unfold disableProfiler. rewrite bind_unfold. cbn [get_state].
  case_decide as Hs; [done|]. rewrite bind_unfold.
  pose proof (keeps_registry_mark cfg "__stop_profile" true t w Hw) as Hw1.
  destruct (mark cfg "__stop_profile" true t w) as [[[]|what|] w1]; simpl in Hw1;
    [|done..].
  rewrite bind_unfold. cbn [set_state]. case_decide; [done|].
  pose proof (consolidate_all_registry_ok (with_state w1 Disabled) Hw1) as Hgc.
  change (all_event_lists (with_state w1 Disabled)) with (all_event_lists w1) in *.
  change (event_lists (with_state w1 Disabled)) with (event_lists w1) in *.
  by destruct (consolidate_all (with_state w1 Disabled) (all_event_lists w1)
                 (event_lists w1)) as [[result kept] store].
Qed.

Lemma thread_exit_registry_ok (t : N) (w : World) :
  registry_ok w → registry_ok (thread_exit t w).
Proof.
  intros (Hh & Hreg & Hinj & Hsub & Hnd). repeat split; simpl; try done.
  - intros t' a Ht'. simpl in *. apply lookup_delete_Some in Ht' as [_ Ht'].
    by eapply Hh.
  - intros t' a Ht'. apply lookup_delete_Some in Ht' as [_ Ht']. by eapply Hreg.
  - intros t1 t2 a H1 H2. apply lookup_delete_Some in H1 as [_ H1].
    apply lookup_delete_Some in H2 as [_ H2]. by eapply Hinj.
Qed.

Lemma api_step_registry_ok (cfg : Config) (c : api_call) (t : N) (w : World) :
  registry_ok w → registry_ok (api_step cfg c t w).
Proof.
  intros Hw. destruct c as [nm ic|nm| |nm| |new_state| |]; simpl.
  - by apply keeps_registry_mark.
  - by apply keeps_registry_pushRange.
  - by apply keeps_registry_popRange.
  - by apply (keeps_registry_run_recording cfg (rec_RecordFunction nm)).
  - by apply (keeps_registry_run_recording cfg rec_RecordFunction_end).
  - by apply keeps_registry_enableProfiler.
  - by apply keeps_registry_disableProfiler.
  - by apply thread_exit_registry_ok.
Qed.

Lemma initial_world_registry_ok : registry_ok initial_world.
Proof.
  repeat split; simpl; try done.
  - intros a Ha. by apply elem_of_nil in Ha.
  - apply NoDup_nil_2.
Qed.

Lemma reachable_registry_ok (cfg : Config) (w : World) :
  reachable cfg w → registry_ok w.
Proof.
  induction 1 as [|w c t _ IH].
  - apply initial_world_registry_ok.
  - by apply api_step_registry_ok.
Qed.

(** ** One recorded event *)

Lemma emit_records (k : EventKind) (name : string) (flag : ProfilerState → bool)
    (t : N) (w : World) :
  registry_ok w →
  ∃ w', (getEventList t ≫= λ a, get_state ≫= λ s', record a k name t (flag s')) w
        = (Returns tt, w') ∧
        records t (λ tid, {| kind := k; name := name; event_thread_id := tid;
                             has_cuda := flag (state w) |}) w w'.
Proof.
  intros Hw.
  assert (keeps_registry
            (getEventList t ≫= λ a, get_state ≫= λ s', record a k name t (flag s')))
    as Hkeep.
  { apply keeps_registry_bind; [apply keeps_registry_getEventList|]. intros a.
    apply keeps_registry_bind; [apply keeps_registry_get_state|]. intros s'.
    apply keeps_registry_record. }
  specialize (Hkeep w Hw). revert Hkeep.
  destruct Hw as (Hh & Hreg & Hinj & Hsub & Hnd).
  rewrite bind_unfold. unfold getEventList.
  destruct (tls_event_list w !! t) as [a|] eqn:Ht.
  - rewrite bind_unfold. cbn [get_state]. unfold record. intros Hkeep.
    eexists. split; [reflexivity|]. destruct (Hh t a Ht) as [l Hl].
    split; [done|]. split; [done|]. split; [exact Hkeep|].
    unfold thread_events, thread_id. simpl.
    rewrite Ht, lookup_alter_eq, Hl. simpl.
    repeat split; try done.
    destruct (tls_event_list w !! t') as [a'|] eqn:Ht'; [|done].
    rewrite lookup_alter_ne; [done|]. intros ->. apply H. by eapply Hinj.
  - rewrite bind_unfold. cbn [get_state]. unfold record. intros Hkeep.
    pose proof (fresh_list_unused w) as Hfresh.
    eexists. split; [reflexivity|].
    split; [done|]. split; [done|]. split; [exact Hkeep|].
    unfold thread_events, thread_id. simpl.
    rewrite Ht, !lookup_insert_eq, lookup_alter_eq, lookup_insert_eq. simpl.
    repeat split; try done.
    + rewrite lookup_insert_ne by done.
      destruct (tls_event_list w !! t') as [a'|] eqn:Ht'; [|done].
      destruct (Hh t' a' Ht') as [l Hl].
      rewrite lookup_alter_ne, lookup_insert_ne; [done| |]; intros Heq;
        rewrite Heq in Hfresh; congruence.
    + by rewrite lookup_insert_ne.
    + by rewrite lookup_insert_ne.
Qed.

Lemma run_recording_records (cfg : Config) (c : recording_call) (t : N) (w : World) :
  registry_ok w → state w = CPU ∨ state w = CUDA →
  ∃ w', run_recording cfg c t w = (Returns tt, w') ∧
        records t (λ tid, event_of (state w) tid c) w w'.
Proof.
  intros Hw Hs.
  assert (state w ≠ Disabled ∧ state w ≠ NVTX) as [Hd Hn]
    by (destruct Hs as [-> | ->]; done).
  destruct c as [nm include_cuda|nm| |nm|nm|nm nr ba|]; simpl;
    unfold mark, pushRange, popRange, RecordFunction_ctor, RecordFunction_ctor_fn,
      RecordFunction_ctor_seq, RecordFunction_dtor, pushFunctionRange,
      pushRange, popRange;
    repeat (rewrite bind_unfold; cbn [get_state]; rewrite ?decide_False by done).
  - apply (emit_records Mark nm (λ s', include_cuda && bool_decide (s' = CUDA)) t w Hw).
  - apply (emit_records PushRange nm (λ s', bool_decide (s' = CUDA)) t w Hw).
  - apply (emit_records PopRange "" (λ s', bool_decide (s' = CUDA)) t w Hw).
  - apply (emit_records PushRange nm (λ s', bool_decide (s' = CUDA)) t w Hw).
  - apply (emit_records PushRange nm (λ s', bool_decide (s' = CUDA)) t w Hw).
  - apply (emit_records PushRange (sequence_label nm nr ba)
             (λ s', bool_decide (s' = CUDA)) t w Hw).
  - apply (emit_records PopRange "" (λ s', bool_decide (s' = CUDA)) t w Hw).
Qed.

(** ** Sequences of recording calls *)

Lemma calls_of_cons_same (t : N) (c : recording_call) (cs : list (N * recording_call)) :
  calls_of t ((t, c) :: cs) = c :: calls_of t cs.
Proof. unfold calls_of. by rewrite filter_cons_True. Qed.

Lemma calls_of_cons_other (t t0 : N) (c : recording_call)
    (cs : list (N * recording_call)) :
  t0 ≠ t → calls_of t ((t0, c) :: cs) = calls_of t cs.
Proof. intros Hne. unfold calls_of. by rewrite filter_cons_False. Qed.

Lemma run_recordings_events (cfg : Config) (cs : list (N * recording_call)) (w : World) :
  registry_ok w → state w = CPU ∨ state w = CUDA →
  ∃ w', run_recordings cfg cs w = (Returns tt, w') ∧
        state w' = state w ∧ registry_ok w' ∧
        external_calls w' = external_calls w ∧
        (∀ t, thread_events t w'
              = thread_events t w
                ++ (event_of (state w) (thread_id t w') <$> calls_of t cs)) ∧
        (∀ t, is_Some (tls_event_list w !! t) →
              is_Some (tls_event_list w' !! t) ∧ thread_id t w' = thread_id t w).
Proof.
  revert w. induction cs as [|[t0 c] cs IH]; intros w Hw Hs.
  - exists w. do 4 (split; [done|]). split; [|done]. intros t.
    unfold calls_of. simpl. by rewrite app_nil_r.
  - destruct (run_recording_records cfg c t0 w Hw Hs)
      as (w1 & Hrun & Hs1 & Hx1 & Hw1 & Hsome1 & Hev1 & Hother1 & Hkeep1 & _).
    destruct (IH w1 Hw1) as (w' & Hrest & Hs' & Hw' & Hx' & Hev' & Hstable');
      [by rewrite Hs1|].
    exists w'. cbn [run_recordings]. rewrite bind_unfold, Hrun.
    split; [done|]. split; [congruence|]. split; [done|]. split; [congruence|].
    split.
    + intros t. rewrite Hev', Hs1. destruct (decide (t0 = t)) as [->|Hne].
      * rewrite calls_of_cons_same, Hev1. cbn [fmap list_fmap].
        destruct (Hstable' t Hsome1) as [_ ->]. by rewrite <- app_assoc.
      * rewrite calls_of_cons_other by done.
        by destruct (Hother1 t (not_eq_sym Hne)) as (-> & _ & _).
    + intros t Ht. destruct (decide (t0 = t)) as [->|Hne].
      * destruct (Hstable' t Hsome1) as [Hsome' ->].
        by destruct (Hkeep1 Ht) as (-> & _).
      * destruct (Hother1 t (not_eq_sym Hne)) as (_ & Htls & Htid).
        destruct (Hstable' t) as [Hsome' ->]; [by rewrite Htls|]. done.
Qed.

Lemma run_recording_disabled (cfg : Config) (c : recording_call) (t : N) (w : World) :
  state w = Disabled → is_mark c = false →
  run_recording cfg c t w = (Returns tt, w).
Proof.
  intros Hs Hc. destruct c; try done; simpl;
    unfold pushRange, popRange, RecordFunction_ctor, RecordFunction_ctor_fn,
      RecordFunction_ctor_seq, RecordFunction_dtor;
    rewrite bind_unfold; cbn [get_state]; by rewrite decide_True.
Qed.

(** ** Enabling *)

Lemma enableProfiler_checks_pass (cfg : Config) (new_state : ProfilerState) (t : N)
    (w : World) :
  new_state ≠ Disabled →
  (new_state = NVTX → use_cuda cfg = true) →
  state w = Disabled ∨ new_state = state w →
  enableProfiler cfg new_state t w
  = (((if use_cuda cfg && bool_decide (new_state = CUDA) then
         for_loop 0 5 (λ _,
           onEachDevice cfg (λ d,
             mark cfg "__cuda_startup" true t ;;
             external (cudaDeviceSynchronize d))) ;;
         onEachDevice cfg (λ d, mark cfg "__cuda_start_event" true t)
       else mret tt) ;;
      mark cfg "__start_profile" false t) (with_state w new_state)).
Proof.
  intros Hd Hn Hs. unfold enableProfiler. rewrite decide_False by done.
  assert (negb (use_cuda cfg) && bool_decide (new_state = NVTX) = false) as ->.
  { destruct (decide (new_state = NVTX)) as [Heq|Hne].
    - by rewrite (Hn Heq).
    - by rewrite (bool_decide_eq_false_2 _ Hne), andb_false_r. }
  rewrite bind_unfold. cbn [get_state].
  assert (bool_decide (state w ≠ Disabled) && bool_decide (new_state ≠ state w) = false)
    as ->.
  { destruct Hs as [Hs|Hs].
    - rewrite (bool_decide_eq_false_2 (state w ≠ Disabled)); [done|]. by intros Hne.
    - rewrite (bool_decide_eq_false_2 (new_state ≠ state w)); [|by intros Hne].
      by rewrite andb_false_r. }
  by rewrite bind_unfold.
Qed.

Lemma enableProfiler_CPU (cfg : Config) (t : N) (w : World) :
  registry_ok w → state w = Disabled ∨ state w = CPU →
  ∃ w', enableProfiler cfg CPU t w = (Returns tt, w') ∧
        records t (λ tid, event_of CPU tid (rec_mark "__start_profile" false))
          (with_state w CPU) w'.
Proof.
  intros Hw Hs. rewrite enableProfiler_checks_pass; [|done|done|].
  - rewrite andb_false_r, bind_unfold. cbn [mret M_ret].
    apply (run_recording_records cfg (rec_mark "__start_profile" false) t
             (with_state w CPU)); [done|by left].
  - destruct Hs as [Hs|Hs]; [by left|by right].
Qed.

Lemma mark_emit_records (cfg : Config) (name : string) (include_cuda : bool) (t : N)
    (w : World) :
  registry_ok w → state w ≠ NVTX →
  ∃ w', mark cfg name include_cuda t w = (Returns tt, w') ∧
        records t (λ tid, event_of (state w) tid (rec_mark name include_cuda)) w w'.
Proof.
  intros Hw Hn. unfold mark. rewrite bind_unfold. cbn [get_state].
  rewrite decide_False by done.
  apply (emit_records Mark name (λ s', include_cuda && bool_decide (s' = CUDA)) t w Hw).
Qed.

(** The marks of [enableProfiler] after the state is set. *)
Lemma start_marks_return (cfg : Config) (t : N) (w0 : World) :
  heap_ok w0 → (state w0 = NVTX → use_cuda cfg = true) →
  (use_cuda cfg = true → state w0 = CUDA → device_query_error cfg = None) →
  ∃ w', ((if use_cuda cfg && bool_decide (state w0 = CUDA) then
            for_loop 0 5 (λ _,
              onEachDevice cfg (λ d,
                mark cfg "__cuda_startup" true t ;;
                external (cudaDeviceSynchronize d))) ;;
            onEachDevice cfg (λ d, mark cfg "__cuda_start_event" true t)
          else mret tt) ;;
         mark cfg "__start_profile" false t) w0 = (Returns tt, w') ∧
        state w' = state w0.
Proof.
  intros Hh Hbuild Hquery. destruct (decide (state w0 = NVTX)) as [Hn|Hn].
  - rewrite Hn. rewrite (bool_decide_eq_false_2 (NVTX = CUDA)) by done.
    rewrite andb_false_r, bind_unfold. cbn [mret M_ret].
    unfold mark. rewrite bind_unfold. cbn [get_state].
    rewrite Hn, decide_True by done. rewrite (Hbuild Hn).
    eexists. split; [reflexivity|]. done.
  - pose proof (enable_marks_append cfg (state w0) t Hquery) as Hmarks.
    rewrite bind_unfold.
    destruct (Hmarks w0 Hn Hh) as (w1 & startup & -> & Hs1 & Hh1 & _).
    destruct (mark_records cfg "__start_profile" false t w1)
      as (w' & -> & Hs' & _); [by rewrite Hs1|done|].
    exists w'. split; [done|]. by rewrite Hs', Hs1.
Qed.

(** The same marks when the device query fails: the first
    [onEachDevice] throws before anything is recorded. *)
Lemma start_marks_throw (cfg : Config) (t : N) (w0 : World) (what : string) :
  use_cuda cfg = true → state w0 = CUDA → device_query_error cfg = Some what →
  ((if use_cuda cfg && bool_decide (state w0 = CUDA) then
      for_loop 0 5 (λ _,
        onEachDevice cfg (λ d,
          mark cfg "__cuda_startup" true t ;;
          external (cudaDeviceSynchronize d))) ;;
      onEachDevice cfg (λ d, mark cfg "__cuda_start_event" true t)
    else mret tt) ;;
   mark cfg "__start_profile" false t) w0 = (Throws what, w0).
Proof.
  intros Hcuda Hs Hq. rewrite Hcuda, bool_decide_eq_true_2 by done. cbn [andb].
  rewrite bind_unfold, bind_unfold. cbn [for_loop]. rewrite bind_unfold.
  unfold onEachDevice at 1. by rewrite Hq.
Qed.

(** ** Disabling in a sampling state *)

Lemma disableProfiler_sampling_facts (cfg : Config) (t : N) (w : World) :
  registry_ok w → state w = CPU ∨ state w = CUDA →
  ∃ report w1 w',
    disableProfiler cfg t w = (Returns report, w') ∧
    records t (λ tid, event_of (state w) tid (rec_mark "__stop_profile" true)) w w1 ∧
    report = (λ a, default [] (event_lists w1 !! a)) <$> all_event_lists w1 ∧
    state w' = Disabled ∧ registry_ok w' ∧
    tls_event_list w' = tls_event_list w1 ∧
    tls_thread_id w' = tls_thread_id w1 ∧
    all_event_lists w' = filter (λ a, use_count a w1 ≠ 1) (all_event_lists w1) ∧
    (∀ a, a ∈ all_event_lists w1 →
          event_lists w' !! a = if decide (use_count a w1 = 1) then None else Some []).
Proof.
  intros Hw Hs.
  assert (state w ≠ Disabled ∧ state w ≠ NVTX) as [Hd Hn]
    by (destruct Hs as [-> | ->]; done).
  destruct (mark_emit_records cfg "__stop_profile" true t w Hw Hn) as (w1 & Hmark & Hrec).
  destruct (disableProfiler_sampling cfg t w) as (w1' & Hmark' & Hdis);
    [apply Hw|done..|].
  rewrite Hmark in Hmark'. injection Hmark' as <-.
  pose proof Hrec as (_ & _ & Hw1 & _).
  eexists _, w1, _. split; [exact Hdis|]. split; [done|].
  split; [apply (consolidate_all_result (with_state w1 Disabled)), Hw1|].
  split; [done|].
  split; [apply (consolidate_all_registry_ok (with_state w1 Disabled)), Hw1|].
  split; [done|]. split; [done|].
  split; [apply (consolidate_all_kept (with_state w1 Disabled))|].
  intros a Ha. cbn [event_lists with_registry].
  rewrite (consolidate_all_store (with_state w1 Disabled)). by rewrite decide_True.
Qed.

End RegistryProps.

(** * Further properties of the profiler *)

Module ProfilerExtras.
Import Profiler Scopes Examples ProfilerProps RegistryProps.

Lemma sampling_cpu_world_ok :
  registry_ok sampling_cpu_world ∧ state sampling_cpu_world = CPU ∧
  tls_event_list sampling_cpu_world !! 0%N = Some 0%N ∧
  tls_event_list sampling_cpu_world !! 1%N = None.
Proof.
  split; [|by vm_compute].
  apply (reachable_registry_ok cpu_build), reachable_step, reachable_initial.
Defined.

(** X8: In every world the interface can reach, each thread's event list exists
    and is in the registry, no two threads share a list, and the registry
    holds existing lists, each once. *)
Theorem registry_invariant (cfg : Config) (w : World) :
  reachable cfg w →
  heap_ok w ∧
  (∀ t a, tls_event_list w !! t = Some a → a ∈ all_event_lists w) ∧
  (∀ t1 t2 a, tls_event_list w !! t1 = Some a → tls_event_list w !! t2 = Some a → t1 = t2) ∧
  (∀ a, a ∈ all_event_lists w → is_Some (event_lists w !! a)) ∧
  NoDup (all_event_lists w).
Proof. apply reachable_registry_ok. Qed.

Lemma registry_invariant_witness :
  heap_ok sampling_cpu_world ∧
  (∀ t a, tls_event_list sampling_cpu_world !! t = Some a
          → a ∈ all_event_lists sampling_cpu_world) ∧
  (∀ t1 t2 a, tls_event_list sampling_cpu_world !! t1 = Some a
              → tls_event_list sampling_cpu_world !! t2 = Some a → t1 = t2) ∧
  (∀ a, a ∈ all_event_lists sampling_cpu_world
        → is_Some (event_lists sampling_cpu_world !! a)) ∧
  NoDup (all_event_lists sampling_cpu_world).
Proof.
  refine (registry_invariant cpu_build sampling_cpu_world _).
  apply reachable_step, reachable_initial.
Defined.




(** X10: A recording call of a thread that already has its list leaves the
    registry, the thread-id counter and the thread's id as they are, and
    appends exactly one event, tagged with that id, to the thread's list. *)
Theorem later_recording_appends (cfg : Config) (c : recording_call) (t : N)
    (w : World) :
  registry_ok w → state w = CPU ∨ state w = CUDA →
  is_Some (tls_event_list w !! t) →
  ∃ w', run_recording cfg c t w = (Returns tt, w') ∧
    all_event_lists w' = all_event_lists w ∧
    next_thread_id w' = next_thread_id w ∧
    thread_id t w' = thread_id t w ∧
    state w' = state w ∧
    thread_events t w' = thread_events t w ++ [event_of (state w) (thread_id t w) c].
Proof.
  intros Hw Hs Ht.
  destruct (run_recording_records cfg c t w Hw Hs)
    as (w' & Hrun & Hs' & _ & _ & _ & Hev & _ & Hkeep & _).
  destruct (Hkeep Ht) as (Htid & Hreg & Hnext & _).
  exists w'. repeat split; try done. by rewrite Hev, Htid.
Qed.

Lemma later_recording_appends_witness :
  ∃ w', run_recording cpu_build rec_popRange 0%N sampling_cpu_world = (Returns tt, w') ∧
    all_event_lists w' = all_event_lists sampling_cpu_world ∧
    next_thread_id w' = next_thread_id sampling_cpu_world ∧
    thread_id 0%N w' = thread_id 0%N sampling_cpu_world ∧
    state w' = state sampling_cpu_world ∧
    thread_events 0%N w'
    = thread_events 0%N sampling_cpu_world
      ++ [event_of (state sampling_cpu_world) (thread_id 0%N sampling_cpu_world)
            rec_popRange].
Proof.
  refine (later_recording_appends cpu_build rec_popRange 0%N sampling_cpu_world _ _ _).
  - apply sampling_cpu_world_ok.
  - left. apply sampling_cpu_world_ok.
  - destruct sampling_cpu_world_ok as (_ & _ & -> & _). by eexists.
Defined.

(** X12: Calls made one after another by any threads in a sampling state all
    return, and each thread's list grows by exactly the events of that
    thread's own calls, in the order the thread made them. *)
Theorem recordings_keep_thread_order (cfg : Config) (cs : list (N * recording_call))
    (w : World) :
  registry_ok w → state w = CPU ∨ state w = CUDA →
  ∃ w', run_recordings cfg cs w = (Returns tt, w') ∧
        state w' = state w ∧
        ∀ t, thread_events t w'
             = thread_events t w
               ++ (event_of (state w) (thread_id t w') <$> calls_of t cs).
Proof.
  intros Hw Hs.
  destruct (run_recordings_events cfg cs w Hw Hs) as (w' & Hrun & Hs' & _ & _ & Hev & _).
  by exists w'.
Qed.

Lemma recordings_keep_thread_order_witness :
  ∃ w', run_recordings cpu_build interleaved_calls sampling_cpu_world = (Returns tt, w') ∧
        state w' = state sampling_cpu_world ∧
        ∀ t, thread_events t w'
             = thread_events t sampling_cpu_world
               ++ (event_of (state sampling_cpu_world) (thread_id t w')
                     <$> calls_of t interleaved_calls).
Proof.
  refine (recordings_keep_thread_order cpu_build interleaved_calls sampling_cpu_world _ _).
  - apply sampling_cpu_world_ok.
  - left. apply sampling_cpu_world_ok.
Defined.

(** X13: While the profiler is disabled, [pushRange], [popRange] and every
    [RecordFunction] constructor and destructor, called in any number by
    any threads, leave the whole profiler state untouched. *)
Theorem scopes_are_free_when_disabled (cfg : Config) (cs : list (N * recording_call))
    (w : World) :
  state w = Disabled →
  Forall (λ tc, is_mark tc.2 = false) cs →
  run_recordings cfg cs w = (Returns tt, w).
Proof.
  intros Hs Hcs. induction Hcs as [|[t c] cs Hc _ IH]; simpl; [done|].
  by rewrite bind_unfold, run_recording_disabled.
Qed.

Lemma scopes_are_free_when_disabled_witness :
  run_recordings gpu_build
    [(0%N, rec_pushRange "a"); (1%N, rec_RecordFunction_fn "MulBackward");
     (1%N, rec_RecordFunction_end); (0%N, rec_popRange)] initial_world
  = (Returns tt, initial_world).
Proof.
  refine (scopes_are_free_when_disabled gpu_build _ initial_world _ _).
  - reflexivity.
  - repeat constructor.
Defined.

(** X11: In any profiler state, a recording call of thread [t] leaves every
    other thread's events, list and thread id as they were. *)
Theorem recording_is_thread_local (cfg : Config) (c : recording_call) (t t' : N)
    (w : World) :
  registry_ok w → t' ≠ t →
  thread_events t' (run_recording cfg c t w).2 = thread_events t' w ∧
  tls_event_list (run_recording cfg c t w).2 !! t' = tls_event_list w !! t' ∧
  thread_id t' (run_recording cfg c t w).2 = thread_id t' w.
Proof.
  intros Hw Hne. destruct (state w) eqn:Hs.
  - destruct (is_mark c) eqn:Hc.
    + destruct c as [nm ic| | | | | |]; try done. simpl.
      destruct (mark_emit_records cfg nm ic t w Hw) as (w' & -> & Hrec);
        [by rewrite Hs|].
      destruct Hrec as (_ & _ & _ & _ & _ & Hother & _). by apply Hother.
    + by rewrite run_recording_disabled.
  - destruct (run_recording_records cfg c t w Hw) as (w' & -> & Hrec); [by left|].
    destruct Hrec as (_ & _ & _ & _ & _ & Hother & _). by apply Hother.
  - destruct (run_recording_records cfg c t w Hw) as (w' & -> & Hrec); [by right|].
    destruct Hrec as (_ & _ & _ & _ & _ & Hother & _). by apply Hother.
  - destruct c as [nm ic|nm| |nm|nm|nm nr ba|]; simpl;
      unfold mark, RecordFunction_ctor, RecordFunction_ctor_fn,
        RecordFunction_ctor_seq, RecordFunction_dtor, pushFunctionRange,
        pushRange, popRange;
      repeat (rewrite bind_unfold; cbn [get_state]; rewrite Hs;
              rewrite ?decide_False by done; rewrite ?decide_True by done);
      by destruct (use_cuda cfg).
Qed.

Lemma recording_is_thread_local_witness :
  thread_events 0%N (run_recording cpu_build (rec_mark "m" true) 1%N sampling_cpu_world).2
    = thread_events 0%N sampling_cpu_world ∧
  tls_event_list (run_recording cpu_build (rec_mark "m" true) 1%N sampling_cpu_world).2
    !! 0%N = tls_event_list sampling_cpu_world !! 0%N ∧
  thread_id 0%N (run_recording cpu_build (rec_mark "m" true) 1%N sampling_cpu_world).2
    = thread_id 0%N sampling_cpu_world.
Proof.
  refine (recording_is_thread_local cpu_build (rec_mark "m" true) 1%N 0%N
            sampling_cpu_world _ _).
  - apply sampling_cpu_world_ok.
  - discriminate.
Defined.

(** X14: [enableProfiler] passes its checks exactly when the requested state
    is not Disabled, the build supports it (NVTX needs CUDA), and the
    profiler is disabled or already in that state; otherwise it throws and
    changes nothing.  Past the checks the state is the requested one: the
    call returns where the device query succeeds (it is made only on a CUDA
    build for the CUDA state), and where that query fails it throws the
    query's error with nothing changed but the state. *)
Theorem enableProfiler_outcome (cfg : Config) (new_state : ProfilerState) (t : N)
    (w : World) :
  heap_ok w →
  (new_state ≠ Disabled ∧ (new_state = NVTX → use_cuda cfg = true) ∧
   (state w = Disabled ∨ new_state = state w) →
     ((use_cuda cfg = true → new_state = CUDA → device_query_error cfg = None) →
        ∃ w', enableProfiler cfg new_state t w = (Returns tt, w') ∧
              state w' = new_state) ∧
     (∀ what, use_cuda cfg = true → new_state = CUDA →
              device_query_error cfg = Some what →
        enableProfiler cfg new_state t w = (Throws what, with_state w new_state))) ∧
  (¬ (new_state ≠ Disabled ∧ (new_state = NVTX → use_cuda cfg = true) ∧
      (state w = Disabled ∨ new_state = state w)) →
     ∃ what, enableProfiler cfg new_state t w = (Throws what, w)).
Proof.
  intros Hh. split.
  - intros (Hd & Hn & Hs). rewrite enableProfiler_checks_pass by done. split.
    + intros Hquery.
      apply (start_marks_return cfg t (with_state w new_state)); done.
    + intros what Hcuda Hnew Hq.
      by apply (start_marks_throw cfg t (with_state w new_state)).
  - intros Hno. unfold enableProfiler.
    destruct (decide (new_state = Disabled)) as [|Hd]; [by eexists|].
    destruct (negb (use_cuda cfg) && bool_decide (new_state = NVTX)) eqn:Hbuild;
      [by eexists|].
    rewrite bind_unfold. cbn [get_state].
    destruct (bool_decide (state w ≠ Disabled) && bool_decide (new_state ≠ state w))
      eqn:Hswap; [by eexists|].
    exfalso. apply Hno. split; [done|]. split.
    + intros ->. rewrite bool_decide_eq_true_2 in Hbuild by done.
      rewrite andb_true_r in Hbuild. by apply negb_false_iff in Hbuild.
    + apply andb_false_iff in Hswap as [Hswap|Hswap];
        apply bool_decide_eq_false in Hswap.
      * left. by destruct (decide (state w = Disabled)).
      * right. by destruct (decide (new_state = state w)).
Qed.

Lemma enableProfiler_outcome_witness :
  (CUDA ≠ Disabled ∧ (CUDA = NVTX → use_cuda broken_gpu_build = true) ∧
   (state initial_world = Disabled ∨ CUDA = state initial_world) →
     ((use_cuda broken_gpu_build = true → CUDA = CUDA →
       device_query_error broken_gpu_build = None) →
        ∃ w', enableProfiler broken_gpu_build CUDA 0%N initial_world = (Returns tt, w') ∧
              state w' = CUDA) ∧
     (∀ what, use_cuda broken_gpu_build = true → CUDA = CUDA →
              device_query_error broken_gpu_build = Some what →
        enableProfiler broken_gpu_build CUDA 0%N initial_world
        = (Throws what, with_state initial_world CUDA))) ∧
  (¬ (CUDA ≠ Disabled ∧ (CUDA = NVTX → use_cuda broken_gpu_build = true) ∧
      (state initial_world = Disabled ∨ CUDA = state initial_world)) →
     ∃ what, enableProfiler broken_gpu_build CUDA 0%N initial_world
             = (Throws what, initial_world)).
Proof.
  refine (enableProfiler_outcome broken_gpu_build CUDA 0%N initial_world _).
  apply initial_world_registry_ok.
Defined.

Example enableProfiler_query_fails :
  enableProfiler broken_gpu_build CUDA 0%N initial_world
  = (Throws "no CUDA-capable device is detected", with_state initial_world CUDA).
Proof. reflexivity. Qed.

(** X16: [disableProfiler] returns exactly when the profiler is active (and, for
    the NVTX state, the build has CUDA); the state is then Disabled, and
    from the NVTX state the report is empty and registry and lists are not
    touched.  Otherwise it throws and changes nothing. *)
Theorem disableProfiler_outcome (cfg : Config) (t : N) (w : World) :
  heap_ok w →
  (state w ≠ Disabled ∧ (state w = NVTX → use_cuda cfg = true) →
     ∃ report w', disableProfiler cfg t w = (Returns report, w') ∧
       state w' = Disabled ∧
       (state w = NVTX →
          report = [] ∧ all_event_lists w' = all_event_lists w ∧
          event_lists w' = event_lists w)) ∧
  (¬ (state w ≠ Disabled ∧ (state w = NVTX → use_cuda cfg = true)) →
     ∃ what, disableProfiler cfg t w = (Throws what, w)).
Proof.
  intros Hh. split.
  - intros [Hd Hbuild]. destruct (decide (state w = NVTX)) as [Hn|Hn].
    + unfold disableProfiler, mark.
      repeat (rewrite bind_unfold; cbn [get_state set_state]; rewrite ?Hn;
              rewrite ?decide_False by done; rewrite ?decide_True by done).
      rewrite (Hbuild Hn).
      unfold external. rewrite bind_unfold. cbn [set_state mret M_ret].
      eexists _, _. split; [reflexivity|]. done.
    + destruct (disableProfiler_sampling cfg t w Hh Hd Hn) as (w1 & _ & ->).
      eexists _, _. split; [reflexivity|]. split; [done|]. done.
  - intros Hno. unfold disableProfiler. rewrite bind_unfold. cbn [get_state].
    destruct (decide (state w = Disabled)) as [|Hd]; [by eexists|].
    destruct (decide (state w = NVTX)) as [Hn|Hn].
    + destruct (use_cuda cfg) eqn:Hcuda; [exfalso; by apply Hno|].
      unfold mark. repeat (rewrite bind_unfold; cbn [get_state]).
      rewrite decide_True by done. rewrite Hcuda. by eexists.
    + exfalso. by apply Hno.
Qed.

Lemma disableProfiler_outcome_witness :
  (state sampling_cpu_world ≠ Disabled ∧
   (state sampling_cpu_world = NVTX → use_cuda cpu_build = true) →
     ∃ report w', disableProfiler cpu_build 0%N sampling_cpu_world = (Returns report, w') ∧
       state w' = Disabled ∧
       (state sampling_cpu_world = NVTX →
          report = [] ∧ all_event_lists w' = all_event_lists sampling_cpu_world ∧
          event_lists w' = event_lists sampling_cpu_world)) ∧
  (¬ (state sampling_cpu_world ≠ Disabled ∧
      (state sampling_cpu_world = NVTX → use_cuda cpu_build = true)) →
     ∃ what, disableProfiler cpu_build 0%N sampling_cpu_world
             = (Throws what, sampling_cpu_world)).
Proof.
  refine (disableProfiler_outcome cpu_build 0%N sampling_cpu_world _).
  apply sampling_cpu_world_ok.
Defined.

Lemma thread_events_in_report (w1 : World) (t : N) :
  registry_ok w1 → is_Some (tls_event_list w1 !! t) →
  thread_events t w1
  ∈ (λ a, default [] (event_lists w1 !! a)) <$> all_event_lists w1.
Proof.
  intros (_ & Hreg & _) [a Ha]. apply list_elem_of_fmap. exists a.
  split; [|by eapply Hreg]. unfold thread_events. by rewrite Ha.
Qed.

(** X17: In a sampling state [disableProfiler] returns a report with one entry
    per registered list (the caller's list included, created if need be).
    The caller's entry is its recorded events followed by the stop mark, and
    every other thread that holds a list has its events, in recording
    order, as an entry. *)
Theorem disableProfiler_report (cfg : Config) (t : N) (w : World) :
  registry_ok w → state w = CPU ∨ state w = CUDA →
  ∃ report w', disableProfiler cfg t w = (Returns report, w') ∧
    length report
    = length (all_event_lists w)
      + (if tls_event_list w !! t is Some _ then 0 else 1) ∧
    thread_events t w
      ++ [event_of (state w) (thread_id t w') (rec_mark "__stop_profile" true)]
    ∈ report ∧
    ∀ t', t' ≠ t → is_Some (tls_event_list w !! t') → thread_events t' w ∈ report.
Proof.
  intros Hw Hs.
  destruct (disableProfiler_sampling_facts cfg t w Hw Hs)
    as (report & w1 & w' & Hdis & Hrec & -> & _ & _ & _ & Htid & _).
  destruct Hrec as (_ & _ & Hw1 & Hsome & Hev & Hother & Hkeep & Hfirst).
  eexists _, w'. split; [done|]. split; [|split].
  - rewrite length_fmap. destruct (tls_event_list w !! t) as [a|] eqn:Ht.
    + destruct Hkeep as (_ & -> & _); [by eexists|]. lia.
    + destruct (Hfirst eq_refl) as (-> & _). simpl. lia.
  - replace (thread_id t w') with (thread_id t w1)
      by (unfold thread_id; by rewrite Htid).
    rewrite <- Hev. by apply thread_events_in_report.
  - intros t' Hne Ht'. destruct (Hother t' Hne) as (<- & Htls & _).
    apply thread_events_in_report; [done|]. by rewrite Htls.
Qed.

Lemma disableProfiler_report_witness :
  ∃ report w', disableProfiler cpu_build 1%N sampling_cpu_world = (Returns report, w') ∧
    length report
    = length (all_event_lists sampling_cpu_world)
      + (if tls_event_list sampling_cpu_world !! 1%N is Some _ then 0 else 1) ∧
    thread_events 1%N sampling_cpu_world
      ++ [event_of (state sampling_cpu_world) (thread_id 1%N w')
            (rec_mark "__stop_profile" true)]
    ∈ report ∧
    ∀ t', t' ≠ 1%N → is_Some (tls_event_list sampling_cpu_world !! t') →
          thread_events t' sampling_cpu_world ∈ report.
Proof.
  refine (disableProfiler_report cpu_build 1%N sampling_cpu_world _ _).
  - apply sampling_cpu_world_ok.
  - left. apply sampling_cpu_world_ok.
Defined.

(** X18: After [disableProfiler] in a sampling state every thread's list is
    empty, the registry holds exactly the lists some thread still holds,
    and a registered list no thread held is gone from registry and store. *)
Theorem disableProfiler_drains_and_collects (cfg : Config) (t : N) (w : World) :
  registry_ok w → state w = CPU ∨ state w = CUDA →
  ∃ report w', disableProfiler cfg t w = (Returns report, w') ∧
    (∀ t', thread_events t' w' = []) ∧
    (∀ a, a ∈ all_event_lists w' ↔ ∃ t', tls_event_list w' !! t' = Some a) ∧
    (∀ a, a ∈ all_event_lists w → (∀ t', tls_event_list w !! t' ≠ Some a) →
          (a ∉ all_event_lists w') ∧ event_lists w' !! a = None).
Proof.
  intros Hw Hs.
  destruct (disableProfiler_sampling_facts cfg t w Hw Hs)
    as (report & w1 & w' & Hdis & Hrec & _ & _ & Hw' & Htls & _ & Hkept & Hstore).
  destruct Hrec as (_ & _ & Hw1 & Hsome & _ & Hother & Hkeep & Hfirst).
  exists report, w'. split; [done|]. split; [|split].
  - intros t'. unfold thread_events.
    destruct (tls_event_list w' !! t') as [a|] eqn:Ht'; [|done].
    rewrite Htls in Ht'. rewrite Hstore by (by eapply Hw1).
    rewrite decide_False; [done|]. apply held_iff_use_count. eauto.
  - intros a. rewrite Hkept, list_elem_of_filter, held_iff_use_count, Htls. split.
    + by intros [Hheld _].
    + intros [t' Ht']. split; [eauto|]. by eapply Hw1.
  - intros a Ha Hnone.
    assert (a ∈ all_event_lists w1) as Ha1.
    { destruct (tls_event_list w !! t) as [a0|] eqn:Ht.
      - destruct Hkeep as (_ & -> & _); [by eexists|done].
      - destruct (Hfirst eq_refl) as (-> & _). by right. }
    assert (use_count a w1 = 1) as Hcount.
    { destruct (decide (use_count a w1 = 1)) as [|Hheld]; [done|].
      apply held_iff_use_count in Hheld as [t' Ht'].
      destruct (decide (t' = t)) as [->|Hne].
      - destruct (tls_event_list w !! t) as [a0|] eqn:Ht.
        + destruct Hkeep as (_ & _ & _ & Hsame); [by eexists|].
          rewrite Hsame in Ht'. injection Ht' as ->. by destruct (Hnone t).
        + destruct (Hfirst eq_refl) as (Hreg1 & _ & _ & Hnew).
          destruct Hw1 as (_ & _ & _ & _ & Hnd1). rewrite Hreg1 in Hnd1.
          apply NoDup_cons in Hnd1 as [Hnotin _].
          rewrite Hnew in Ht'. by injection Ht' as <-.
      - destruct (Hother t' Hne) as (_ & Htls' & _). rewrite Htls' in Ht'.
        by destruct (Hnone t'). }
    split.
    + rewrite Hkept, list_elem_of_filter. intros [Hheld _]. done.
    + rewrite Hstore by done. by rewrite decide_True.
Qed.

Lemma orphan_world_ok :
  registry_ok orphan_world ∧ state orphan_world = CPU.
Proof.
  split; [|by vm_compute].
  apply (reachable_registry_ok cpu_build).
  apply (reachable_step cpu_build _ call_thread_exit 0%N).
  apply reachable_step, reachable_initial.
Defined.

Lemma disableProfiler_drains_and_collects_witness :
  ∃ report w', disableProfiler cpu_build 1%N orphan_world = (Returns report, w') ∧
    (∀ t', thread_events t' w' = []) ∧
    (∀ a, a ∈ all_event_lists w' ↔ ∃ t', tls_event_list w' !! t' = Some a) ∧
    (∀ a, a ∈ all_event_lists orphan_world →
          (∀ t', tls_event_list orphan_world !! t' ≠ Some a) →
          (a ∉ all_event_lists w') ∧ event_lists w' !! a = None).
Proof.
  refine (disableProfiler_drains_and_collects cpu_build 1%N orphan_world _ _).
  - apply orphan_world_ok.
  - left. apply orphan_world_ok.
Defined.

Example orphan_list_collected :
  all_event_lists orphan_world = [0%N] ∧
  (disableProfiler cpu_build 1%N orphan_world).1
  = Returns
      [ [ {| kind := Mark; name := "__stop_profile"; event_thread_id := 1;
             has_cuda := false |} ];
        [ {| kind := Mark; name := "__start_profile"; event_thread_id := 0;
             has_cuda := false |} ] ] ∧
  all_event_lists (disableProfiler cpu_build 1%N orphan_world).2 = [1%N].
Proof. vm_compute. repeat split. Qed.

(** ** The call operator *)

(** X19: [Function::operator()] in a sampling state brackets the body: whether
    the body returns or throws, the call ends the same way, and the thread's
    list has gained the range start named after the node, the body's
    events, and the range end, in that order. *)
Theorem Function_call_balanced {A : Type} (cfg : Config) (fn_name : string)
    (body : M A) (o : outcome A) (inner : ProfilerState → Z → list Event) (t : N)
    (w : World) :
  registry_ok w → state w = CPU ∨ state w = CUDA →
  o ≠ Undefined →
  body_appends t inner body o →
  ∃ w', Function_call cfg fn_name body t w = (o, w') ∧
    state w' = state w ∧
    thread_events t w'
    = thread_events t w
      ++ [event_of (state w) (thread_id t w') (rec_RecordFunction_fn fn_name)]
      ++ inner (state w) (thread_id t w')
      ++ [event_of (state w) (thread_id t w') rec_RecordFunction_end].
Proof.
  intros Hw Hs Ho Hbody. unfold Function_call, with_RecordFunction.
  change (RecordFunction_ctor_fn cfg fn_name t)
    with (run_recording cfg (rec_RecordFunction_fn fn_name) t).
  change (RecordFunction_dtor cfg t) with (run_recording cfg rec_RecordFunction_end t).
  destruct (run_recording_records cfg (rec_RecordFunction_fn fn_name) t w Hw Hs)
    as (w1 & -> & Hs1 & _ & Hw1 & Hsome1 & Hev1 & _).
  destruct (Hbody w1 Hw1) as (w2 & -> & Hs2 & Hw2 & Hsome2 & Htid2 & Hev2);
    [by rewrite Hs1|done|].
  destruct (run_recording_records cfg rec_RecordFunction_end t w2 Hw2)
    as (w3 & -> & Hs3 & _ & _ & _ & Hev3 & _ & Hkeep3 & _);
    [by rewrite Hs2, Hs1|].
  destruct (Hkeep3 Hsome2) as (Htid3 & _).
  exists w3. split; [by destruct o|]. split; [congruence|].
  rewrite Hev3, Hev2, Hev1, Hs2, Hs1, Htid3, Htid2. by rewrite <- !app_assoc.
Qed.

Lemma failing_body_appends :
  body_appends 0%N (λ s tid, [event_of s tid (rec_mark "inner" true)])
    failing_body (Throws "failed").
Proof.
  intros w1 Hw1 Hs1 Hsome1. unfold failing_body. rewrite bind_unfold.
  destruct (mark_emit_records cpu_build "inner" true 0%N w1 Hw1)
    as (w2 & -> & Hs2 & _ & Hw2 & Hsome2 & Hev2 & _ & Hkeep2 & _).
  { destruct Hs1 as [-> | ->]; done. }
  destruct (Hkeep2 Hsome1) as (Htid2 & _).
  exists w2. split; [done|]. split; [done|]. split; [done|]. split; [done|].
  split; [done|]. by rewrite Hev2, Htid2.
Defined.

Lemma Function_call_balanced_witness :
  ∃ w', Function_call cpu_build "MulBackward" failing_body 0%N sampling_cpu_world
        = (Throws "failed", w') ∧
    state w' = state sampling_cpu_world ∧
    thread_events 0%N w'
    = thread_events 0%N sampling_cpu_world
      ++ [event_of (state sampling_cpu_world) (thread_id 0%N w')
            (rec_RecordFunction_fn "MulBackward")]
      ++ [event_of (state sampling_cpu_world) (thread_id 0%N w') (rec_mark "inner" true)]
      ++ [event_of (state sampling_cpu_world) (thread_id 0%N w') rec_RecordFunction_end].
Proof.
  refine (Function_call_balanced cpu_build "MulBackward" failing_body (Throws "failed")
            (λ s tid, [event_of s tid (rec_mark "inner" true)]) 0%N
            sampling_cpu_world _ _ _ _).
  - apply sampling_cpu_world_ok.
  - left. apply sampling_cpu_world_ok.
  - discriminate.
  - apply failing_body_appends.
Defined.

(** ** A whole session *)

(** X20: Starting disabled, a session on thread [t] (enable CPU sampling, any
    calls by any threads, disable) returns a report in which [t]'s entry is
    what [t] had recorded before, the start mark, [t]'s calls in order, and
    the stop mark; every other thread holding a list has an entry with its
    earlier events followed by its calls in order.  Afterwards the profiler
    is disabled and every list is empty. *)
Theorem session_report (cfg : Config) (cs : list (N * recording_call)) (t : N)
    (w : World) :
  registry_ok w → state w = Disabled →
  ∃ report w', session cfg cs t w = (Returns report, w') ∧
    state w' = Disabled ∧
    (∀ t', thread_events t' w' = []) ∧
    thread_events t w
      ++ [event_of CPU (thread_id t w') (rec_mark "__start_profile" false)]
      ++ (event_of CPU (thread_id t w') <$> calls_of t cs)
      ++ [event_of CPU (thread_id t w') (rec_mark "__stop_profile" true)]
    ∈ report ∧
    ∀ t', t' ≠ t → is_Some (tls_event_list w' !! t') →
      thread_events t' w ++ (event_of CPU (thread_id t' w') <$> calls_of t' cs)
      ∈ report.
Proof.
  intros Hw Hs. unfold session.
  destruct (enableProfiler_CPU cfg t w Hw) as (wa & Hena & Hreca); [by left|].
  destruct Hreca as (Hsa & _ & Hwa & Hsomea & Heva & Hothera & _).
  change (state (with_state w CPU)) with CPU in Hsa.
  change (thread_events t (with_state w CPU)) with (thread_events t w) in Heva.
  destruct (run_recordings_events cfg cs wa Hwa)
    as (wb & Hrun & Hsb & Hwb & _ & Hevb & Hstableb); [by left; rewrite Hsa|].
  rewrite Hsa in Hsb, Hevb.
  destruct (disableProfiler_sampling_facts cfg t wb Hwb)
    as (report & w1 & w' & Hdis & Hrec1 & Hrep & Hs' & Hw' & Htls' & Htid' & Hkept & Hstore);
    [by left; rewrite Hsb|].
  rewrite Hsb in Hrec1.
  destruct Hrec1 as (_ & _ & Hw1 & Hsome1 & Hev1 & Hother1 & Hkeep1 & _).
  assert (∀ t', thread_id t' w' = thread_id t' w1) as Hid'
    by (intros t'; unfold thread_id; by rewrite Htid').
  destruct (Hstableb t Hsomea) as [Hsomeb Htidb].
  destruct (Hkeep1 Hsomeb) as (Htid1 & _).
  exists report, w'.
  rewrite bind_unfold, Hena, bind_unfold, Hrun.
  split; [done|]. split; [done|]. split; [|split].
  - intros t'. unfold thread_events.
    destruct (tls_event_list w' !! t') as [a|] eqn:Ht'; [|done].
    rewrite Htls' in Ht'. rewrite Hstore by (by eapply Hw1).
    rewrite decide_False; [done|]. apply held_iff_use_count. eauto.
  - rewrite Hrep, Hid', Htid1.
    replace (thread_events t w
             ++ [event_of CPU (thread_id t wb) (rec_mark "__start_profile" false)]
             ++ (event_of CPU (thread_id t wb) <$> calls_of t cs)
             ++ [event_of CPU (thread_id t wb) (rec_mark "__stop_profile" true)])
      with (thread_events t w1); [by apply thread_events_in_report|].
    rewrite Hev1, Htid1, Hevb, Heva, Htidb. by rewrite <- !app_assoc.
  - intros t' Hne Ht'. rewrite Htls' in Ht'.
    destruct (Hother1 t' Hne) as (Hev1' & Htls1' & Htid1').
    destruct (Hothera t' Hne) as (Heva' & _).
    change (thread_events t' (with_state w CPU)) with (thread_events t' w) in Heva'.
    rewrite Hrep, Hid', Htid1'.
    replace (thread_events t' w ++ (event_of CPU (thread_id t' wb) <$> calls_of t' cs))
      with (thread_events t' w1); [by apply thread_events_in_report|].
    by rewrite Hev1', Hevb, Heva'.
Qed.

Lemma session_report_witness :
  ∃ report w', session cpu_build interleaved_calls 0%N initial_world = (Returns report, w') ∧
    state w' = Disabled ∧
    (∀ t', thread_events t' w' = []) ∧
    thread_events 0%N initial_world
      ++ [event_of CPU (thread_id 0%N w') (rec_mark "__start_profile" false)]
      ++ (event_of CPU (thread_id 0%N w') <$> calls_of 0%N interleaved_calls)
      ++ [event_of CPU (thread_id 0%N w') (rec_mark "__stop_profile" true)]
    ∈ report ∧
    ∀ t', t' ≠ 0%N → is_Some (tls_event_list w' !! t') →
      thread_events t' initial_world
        ++ (event_of CPU (thread_id t' w') <$> calls_of t' interleaved_calls)
      ∈ report.
Proof.
  refine (session_report cpu_build interleaved_calls 0%N initial_world _ _).
  - apply initial_world_registry_ok.
  - reflexivity.
Defined.

Example session_of_two_threads :
  (session cpu_build interleaved_calls 0%N initial_world).1
  = Returns
      [ [ {| kind := Mark; name := "m"; event_thread_id := 1; has_cuda := false |};
          {| kind := PushRange; name := "c, current seq nr 7, backward apply seq nr 3";
             event_thread_id := 1; has_cuda := false |} ];
        [ {| kind := Mark; name := "__start_profile"; event_thread_id := 0;
             has_cuda := false |};
          {| kind := PushRange; name := "a"; event_thread_id := 0; has_cuda := false |};
          {| kind := PushRange; name := "b"; event_thread_id := 0; has_cuda := false |};
          {| kind := PopRange; name := ""; event_thread_id := 0; has_cuda := false |};
          {| kind := PopRange; name := ""; event_thread_id := 0; has_cuda := false |};
          {| kind := Mark; name := "__stop_profile"; event_thread_id := 0;
             has_cuda := false |} ] ].
Proof. vm_compute. reflexivity. Qed.

(** ** The startup marks of CUDA sampling *)

Lemma emits_mark (cfg : Config) (nm : string) (include_cuda : bool) (t : N) :
  emits t [rec_mark nm include_cuda] [] (mark cfg nm include_cuda t).
Proof.
  intros w Hw Hs.
  destruct (mark_emit_records cfg nm include_cuda t w Hw)
    as (w' & Hrun & Hs' & Hx & Hw' & Hsome & Hev & _ & Hkeep & _).
  { destruct Hs as [-> | ->]; done. }
  exists w'. split; [done|]. split; [done|]. split; [done|].
  split; [by rewrite Hx, app_nil_r|]. split; [done|]. split; [|done].
  intros Ht. split; [done|]. by destruct (Hkeep Ht) as (-> & _).
Qed.

Lemma emits_external (t : N) (x : external_call) : emits t [] [x] (external x).
Proof.
  intros w Hw Hs. exists (with_external_call w x).
  split; [done|]. split; [done|]. split; [done|]. split; [done|].
  split; [by rewrite app_nil_r|]. split; [|done]. by intros Ht.
Qed.

Lemma emits_mret (t : N) : emits t [] [] (mret tt).
Proof.
  intros w Hw Hs. exists w.
  split; [done|]. split; [done|]. split; [done|]. split; [by rewrite app_nil_r|].
  split; [by rewrite app_nil_r|]. split; [|done]. by intros Ht.
Qed.

Lemma emits_bind (t : N) (calls1 calls2 : list recording_call)
    (xs1 xs2 : list external_call) (c k : M unit) :
  emits t calls1 xs1 c → emits t calls2 xs2 k →
  emits t (calls1 ++ calls2) (xs1 ++ xs2) (c ;; k).
Proof.
  intros Hc Hk w Hw Hs. rewrite bind_unfold.
  destruct (Hc w Hw Hs) as (w1 & -> & Hs1 & Hw1 & Hx1 & Hev1 & Hkeep1 & Hsome1).
  destruct (Hk w1 Hw1) as (w2 & -> & Hs2 & Hw2 & Hx2 & Hev2 & Hkeep2 & Hsome2);
    [by rewrite Hs1|].
  exists w2. split; [done|]. split; [congruence|]. split; [done|].
  split; [by rewrite Hx2, Hx1, app_assoc|]. split; [|split].
  - rewrite Hev2, Hev1, Hs1, fmap_app, app_assoc. f_equal.
    destruct calls1 as [|c1 calls1]; [done|].
    destruct Hkeep2 as [_ ->]; [by apply Hsome1|done].
  - intros Ht. destruct (Hkeep1 Ht) as [Ht1 Hid1].
    destruct (Hkeep2 Ht1) as [Ht2 Hid2]. split; [done|congruence].
  - intros Hne. destruct calls2 as [|c2 calls2].
    + rewrite app_nil_r in Hne. by apply Hkeep2, Hsome1.
    + by apply Hsome2.
Qed.

Lemma emits_for_loop (t : N) (calls : list recording_call) (xs : nat → list external_call)
    (i count : nat) (body : nat → M unit) :
  (∀ j, emits t calls (xs j) (body j)) →
  emits t (concat (replicate count calls)) (concat (xs <$> seq i count))
    (for_loop i count body).
Proof.
  intros Hbody. revert i. induction count as [|count IH]; intros i; simpl.
  - apply emits_mret.
  - apply emits_bind; [apply Hbody|apply IH].
Qed.

Lemma concat_replicate_singleton {A : Type} (n : nat) (x : A) :
  concat (replicate n [x]) = replicate n x.
Proof. induction n as [|n IH]; simpl; [done|]. f_equal. exact IH. Qed.

Lemma concat_fmap_nil {A B : Type} (l : list A) :
  concat ((λ _, @nil B) <$> l) = [].
Proof. induction l as [|a l IH]; simpl; done. Qed.

Lemma concat_fmap_singleton {A B : Type} (f : A → B) (l : list A) :
  concat ((λ a, [f a]) <$> l) = f <$> l.
Proof. induction l as [|a l IH]; simpl; [done|]. f_equal. exact IH. Qed.

(** X15: On a CUDA build where the device query succeeds,
    [enableProfiler(CUDA)] from the disabled state (or from CUDA itself)
    returns and records on the calling thread five rounds of one
    "__cuda_startup" mark per device, then one "__cuda_start_event" mark per
    device, then the "__start_profile" mark, and synchronises each device
    once per startup round, in device order. *)
Theorem enableProfiler_CUDA_startup (cfg : Config) (t : N) (w : World) :
  registry_ok w → use_cuda cfg = true →
  device_query_error cfg = None →
  state w = Disabled ∨ state w = CUDA →
  ∃ w', enableProfiler cfg CUDA t w = (Returns tt, w') ∧
    state w' = CUDA ∧
    thread_events t w'
    = thread_events t w
      ++ (event_of CUDA (thread_id t w')
            <$> concat (replicate 5
                          (replicate (device_count cfg) (rec_mark "__cuda_startup" true)))
                ++ replicate (device_count cfg) (rec_mark "__cuda_start_event" true)
                ++ [rec_mark "__start_profile" false]) ∧
    external_calls w'
    = external_calls w
      ++ concat (replicate 5 (cudaDeviceSynchronize <$> seq 0 (device_count cfg))).
Proof.
  intros Hw Hcuda Hq Hs. rewrite enableProfiler_checks_pass; [|done|done|].
  2: { destruct Hs as [Hs|Hs]; [by left|by right]. }
  rewrite Hcuda, bool_decide_eq_true_2 by done. cbn [andb].
  assert (∀ (nm : string) (i : nat),
            emits t (replicate (device_count cfg) (rec_mark nm true)) []
              (onEachDevice cfg (λ _, mark cfg nm true t))) as Hstart.
  { intros nm i. unfold onEachDevice. rewrite Hq.
    pose proof (emits_for_loop t [rec_mark nm true] (λ _, []) 0 (device_count cfg)
                  (λ _, mark cfg nm true t) (λ _, emits_mark cfg nm true t)) as Hloop.
    by rewrite concat_replicate_singleton, concat_fmap_nil in Hloop. }
  assert (emits t (replicate (device_count cfg) (rec_mark "__cuda_startup" true))
            (cudaDeviceSynchronize <$> seq 0 (device_count cfg))
            (onEachDevice cfg (λ d,
               mark cfg "__cuda_startup" true t ;; external (cudaDeviceSynchronize d))))
    as Hround.
  { unfold onEachDevice. rewrite Hq.
    pose proof (emits_for_loop t [rec_mark "__cuda_startup" true]
                  (λ d, [cudaDeviceSynchronize d]) 0 (device_count cfg)
                  (λ d, mark cfg "__cuda_startup" true t ;;
                        external (cudaDeviceSynchronize d))
                  (λ d, emits_bind t _ [] [] _ _ _
                          (emits_mark cfg "__cuda_startup" true t)
                          (emits_external t (cudaDeviceSynchronize d)))) as Hloop.
    by rewrite concat_replicate_singleton, concat_fmap_singleton in Hloop. }
  pose proof (emits_for_loop t _ (λ _, cudaDeviceSynchronize <$> seq 0 (device_count cfg))
                0 5 _ (λ _, Hround)) as Hrounds.
  pose proof (emits_bind t _ _ _ _ _ _
                (emits_bind t _ _ _ _ _ _ Hrounds (Hstart "__cuda_start_event" 0))
                (emits_mark cfg "__start_profile" false t)) as Hall.
  destruct (Hall (with_state w CUDA)) as (w' & Hrun & Hs' & _ & Hx & Hev & _);
    [done|by right|].
  exists w'. split; [exact Hrun|]. split; [done|]. split.
  - rewrite Hev. cbn [state with_state]. by rewrite <- app_assoc.
  - rewrite Hx. cbn [external_calls with_state]. simpl. by rewrite !app_nil_r.
Qed.

Lemma enableProfiler_CUDA_startup_witness :
  ∃ w', enableProfiler gpu_build CUDA 0%N initial_world = (Returns tt, w') ∧
    state w' = CUDA ∧
    thread_events 0%N w'
    = thread_events 0%N initial_world
      ++ (event_of CUDA (thread_id 0%N w')
            <$> concat (replicate 5
                          (replicate (device_count gpu_build)
                             (rec_mark "__cuda_startup" true)))
                ++ replicate (device_count gpu_build) (rec_mark "__cuda_start_event" true)
                ++ [rec_mark "__start_profile" false]) ∧
    external_calls w'
    = external_calls initial_world
      ++ concat (replicate 5 (cudaDeviceSynchronize <$> seq 0 (device_count gpu_build))).
Proof.
  refine (enableProfiler_CUDA_startup gpu_build 0%N initial_world _ _ _ _).
  - apply initial_world_registry_ok.
  - reflexivity.
  - reflexivity.
  - by left.
Defined.

(** ** The NVTX state *)




End ProfilerExtras.

(** * Further properties of the Function node *)

Module FunctionExtras.
Import Autograd Examples FunctionProps.

Lemma num_outputs_small (f : Function) :
  (N.of_nat (length (next_edges_ f)) < uint32_modulus)%N →
  num_outputs f = N.of_nat (length (next_edges_ f)).
Proof. apply to_uint32_small. Qed.

Lemma should_compute_output_lookup (f : Function) (i : nat) (e : Edge) :
  (N.of_nat i < num_outputs f)%N → next_edges_ f !! i = Some e →
  should_compute_output f i = Returns (is_valid e).
Proof.
  intros Hi He. unfold should_compute_output.
  destruct (N.ltb_spec (N.of_nat i) (num_outputs f)) as [_|Hge]; [|lia].
  by rewrite He.
Qed.

(** X2: [set_next_edge] with an index inside the edge list replaces that edge
    and nothing else: the other edges, the counts of inputs and outputs and
    the activity of the other outputs stay, and the output's activity
    becomes the validity of the new edge. *)
Theorem set_next_edge_spec (index : nat) (edge : Edge) (f : Function) :
  index < length (next_edges_ f) →
  ∃ f', set_next_edge index edge f = Some f' ∧
    next_edge f' index = Some edge ∧
    (∀ j, j ≠ index → next_edge f' j = next_edge f j) ∧
    num_outputs f' = num_outputs f ∧
    num_inputs f' = num_inputs f ∧
    ((N.of_nat index < num_outputs f)%N →
       should_compute_output f' index = Returns (is_valid edge)) ∧
    (∀ j, j ≠ index → should_compute_output f' j = should_compute_output f j).
Proof.
  intros Hlt. unfold set_next_edge. rewrite decide_True by done.
  eexists. split; [reflexivity|].
  assert (num_outputs (with_next_edges f (<[index:=edge]> (next_edges_ f)))
          = num_outputs f) as Hnum.
  { unfold num_outputs. simpl. by rewrite length_insert. }
  unfold next_edge. simpl. repeat split.
  - by apply list_lookup_insert_eq.
  - intros j Hj. by apply list_lookup_insert_ne.
  - done.
  - intros Hi. apply should_compute_output_lookup; [by rewrite Hnum|].
    simpl. by apply list_lookup_insert_eq.
  - intros j Hj. unfold should_compute_output. rewrite Hnum. simpl.
    by rewrite list_lookup_insert_ne.
Qed.

Lemma set_next_edge_spec_witness :
  ∃ f', set_next_edge 0 Edge_default one_output_node = Some f' ∧
    next_edge f' 0 = Some Edge_default ∧
    (∀ j, j ≠ 0 → next_edge f' j = next_edge one_output_node j) ∧
    num_outputs f' = num_outputs one_output_node ∧
    num_inputs f' = num_inputs one_output_node ∧
    ((N.of_nat 0 < num_outputs one_output_node)%N →
       should_compute_output f' 0 = Returns (is_valid Edge_default)) ∧
    (∀ j, j ≠ 0 → should_compute_output f' j = should_compute_output one_output_node j).
Proof.
  refine (set_next_edge_spec 0 Edge_default one_output_node _).
  simpl. lia.
Defined.

(** X3: [add_next_edge] on a node with fewer than [2^32 - 1] outputs raises
    [num_outputs()] by one, makes the new edge the last output, whose
    activity is the edge's validity, and leaves the earlier outputs and
    their activity unchanged. *)
Theorem add_next_edge_spec (edge : Edge) (f : Function) :
  (N.of_nat (length (next_edges_ f)) < 4294967295)%N →
  num_outputs (add_next_edge edge f) = (num_outputs f + 1)%N ∧
  next_edge (add_next_edge edge f) (length (next_edges_ f)) = Some edge ∧
  should_compute_output (add_next_edge edge f) (length (next_edges_ f))
    = Returns (is_valid edge) ∧
  ∀ j, j < length (next_edges_ f) →
    next_edge (add_next_edge edge f) j = next_edge f j ∧
    should_compute_output (add_next_edge edge f) j = should_compute_output f j.
Proof.
  intros Hlt.
  assert (num_outputs f = N.of_nat (length (next_edges_ f))) as Hold.
  { apply num_outputs_small. unfold uint32_modulus. lia. }
  assert (num_outputs (add_next_edge edge f) = (N.of_nat (length (next_edges_ f)) + 1)%N)
    as Hnew.
  { rewrite num_outputs_small; simpl; rewrite length_app; simpl;
      [lia|unfold uint32_modulus; lia]. }
  assert (next_edges_ (add_next_edge edge f) !! length (next_edges_ f) = Some edge)
    as Hlast.
  { simpl. rewrite lookup_app_r by lia. by rewrite Nat.sub_diag. }
  split; [by rewrite Hnew, Hold|]. split; [done|]. split.
  - apply should_compute_output_lookup; [rewrite Hnew; lia|done].
  - intros j Hj.
    assert (next_edges_ (add_next_edge edge f) !! j = next_edges_ f !! j) as Hsame.
    { simpl. by rewrite lookup_app_l. }
    split; [done|].
    destruct (lookup_lt_is_Some_2 (next_edges_ f) j Hj) as [e He].
    rewrite (should_compute_output_lookup f j e) by (rewrite ?Hold; done || lia).
    apply should_compute_output_lookup; [rewrite Hnew; lia|by rewrite Hsame].
Qed.

Lemma add_next_edge_spec_witness :
  num_outputs (add_next_edge Edge_default one_output_node)
    = (num_outputs one_output_node + 1)%N ∧
  next_edge (add_next_edge Edge_default one_output_node)
    (length (next_edges_ one_output_node)) = Some Edge_default ∧
  should_compute_output (add_next_edge Edge_default one_output_node)
    (length (next_edges_ one_output_node)) = Returns (is_valid Edge_default) ∧
  ∀ j, j < length (next_edges_ one_output_node) →
    next_edge (add_next_edge Edge_default one_output_node) j = next_edge one_output_node j ∧
    should_compute_output (add_next_edge Edge_default one_output_node) j
      = should_compute_output one_output_node j.
Proof.
  refine (add_next_edge_spec Edge_default one_output_node _).
  vm_compute. reflexivity.
Defined.

(** X4: [any_variable_requires_grad] is true exactly when the list holds a
    value that is defined and requires a gradient; an undefined value never
    counts, whatever its flag. *)
Theorem any_variable_requires_grad_spec (variables : list Variable_) :
  any_variable_requires_grad variables = true ↔
  ∃ v, v ∈ variables ∧ defined v = true ∧ requires_grad v = true.
Proof.
  unfold any_variable_requires_grad. rewrite existsb_exists. split.
  - intros (v & Hin & Hv). apply andb_true_iff in Hv as [Hd Hr].
    exists v. by rewrite list_elem_of_In.
  - intros (v & Hin & Hd & Hr). exists v. rewrite <- list_elem_of_In.
    by rewrite Hd, Hr.
Qed.

(** ** Sequence numbers *)

Lemma sequence_nr_new_Function (anomaly : bool) (n : N) (edges : list Edge) :
  sequence_nr (new_Function anomaly n edges) = n.
Proof. by destruct anomaly. Qed.

Lemma construct_nodes_sequence (anomaly : bool) (next : N) (edge_lists : list (list Edge)) :
  (next + N.of_nat (length edge_lists) ≤ uint64_modulus)%N →
  length (construct_nodes anomaly next edge_lists).1 = length edge_lists ∧
  ∀ k f, (construct_nodes anomaly next edge_lists).1 !! k = Some f →
         sequence_nr f = (next + N.of_nat k)%N.
Proof.
  revert next. induction edge_lists as [|edges rest IH]; intros next Hfit.
  - split; [done|]. intros k f Hk. done.
  - cbn [construct_nodes new_Function_auto].
    destruct rest as [|edges' rest].
    + simpl. split; [done|]. intros [|k] f Hk; simplify_eq/=.
      rewrite sequence_nr_new_Function. lia.
    + assert (to_uint64 (next + 1) = (next + 1)%N) as ->.
      { unfold to_uint64. apply N.mod_small. simpl length in Hfit. lia. }
      destruct (IH (next + 1)%N) as [Hlen Hseq]; [simpl length in *; lia|].
      destruct (construct_nodes anomaly (next + 1) (edges' :: rest)) as [fs counter].
      simpl in *. split; [by rewrite Hlen|].
      intros [|k] f Hk; simplify_eq/=.
      * rewrite sequence_nr_new_Function. lia.
      * rewrite (Hseq k f Hk). lia.
Qed.

(** X5: Nodes constructed one after another on one thread get consecutive
    sequence numbers starting at the thread's counter, hence strictly
    increasing ones, as long as the 64-bit counter does not wrap. *)
Theorem sequence_numbers_increase (anomaly : bool) (next : N)
    (edge_lists : list (list Edge)) :
  (next + N.of_nat (length edge_lists) ≤ uint64_modulus)%N →
  ∀ i j fi fj, i < j →
    (construct_nodes anomaly next edge_lists).1 !! i = Some fi →
    (construct_nodes anomaly next edge_lists).1 !! j = Some fj →
    sequence_nr fi = (next + N.of_nat i)%N ∧
    (sequence_nr fi < sequence_nr fj)%N.
Proof.
  intros Hfit i j fi fj Hij Hi Hj.
  destruct (construct_nodes_sequence anomaly next edge_lists Hfit) as [_ Hseq].
  rewrite (Hseq i fi Hi), (Hseq j fj Hj). split; [done|lia].
Qed.

Lemma sequence_numbers_increase_witness :
  sequence_nr (new_Function true 5 []) = (5 + N.of_nat 0)%N ∧
  (sequence_nr (new_Function true 5 []) < sequence_nr (new_Function true 7 []))%N.
Proof.
  refine (sequence_numbers_increase true 5 [[]; [real_edge]; []] _ 0 2
            (new_Function true 5 []) (new_Function true 7 []) _ _ _).
  - vm_compute. discriminate.
  - lia.
  - reflexivity.
  - reflexivity.
Defined.

(** ** From bound values to active outputs *)

(** X6: A value bound with [create_gradient_edge] yields, through
    [collect_next_edges] with gradient tracking on, exactly the edge
    (node, slot) it was bound to, the slot being the node's [num_inputs()]
    before the binding. *)
Theorem bound_value_is_collected (variable : Variable_) (fn : N)
    (nodes : gmap N Function) (f : Function) :
  nodes !! fn = Some f → defined variable = true →
  ∃ variable' nodes',
    create_gradient_edge variable fn nodes = Some (variable', nodes') ∧
    collect_next_edges true [arg_variable variable']
    = ([ {| function := Some fn; input_nr := num_inputs f |} ], [variable']).
Proof.
  intros Hf Hdef. unfold create_gradient_edge. rewrite Hf. simpl.
  eexists _, _. split; [reflexivity|].
  unfold collect_next_edges, MakeNextFunctionList_apply, MakeNextFunctionList_call.
  simpl. by rewrite Hdef.
Qed.

Lemma bound_value_is_collected_witness :
  ∃ variable' nodes',
    create_gradient_edge some_variable 5%N {[5%N := one_input_node]}
      = Some (variable', nodes') ∧
    collect_next_edges true [arg_variable variable']
    = ([ {| function := Some 5%N; input_nr := num_inputs one_input_node |} ], [variable']).
Proof.
  refine (bound_value_is_collected some_variable 5%N {[5%N := one_input_node]}
            one_input_node _ _).
  - apply lookup_singleton_eq.
  - reflexivity.
Defined.

(** X7: A node constructed from the edges collected (gradient tracking on) from
    fewer than [2^32] values computes output [i] exactly when the [i]-th
    value is defined and has a valid gradient edge. *)
Theorem collected_edges_decide_outputs (anomaly : bool) (sequence_nr : N)
    (args : list argument) (i : nat) (v : Variable_) :
  (N.of_nat (length (flatten_arguments args)) < uint32_modulus)%N →
  flatten_arguments args !! i = Some v →
  should_compute_output
    (new_Function anomaly sequence_nr (collect_next_edges true args).1) i
  = Returns (defined v && is_valid (gradient_edge v)).
Proof.
  intros Hfit Hv.
  assert ((collect_next_edges true args).1
          = (λ v, if defined v then gradient_edge v else Edge_default)
              <$> flatten_arguments args) as Hedges.
  { unfold collect_next_edges, MakeNextFunctionList_apply. simpl.
    by rewrite MakeNextFunctionList_foldl. }
  assert (next_edges_ (new_Function anomaly sequence_nr (collect_next_edges true args).1)
          = (collect_next_edges true args).1) as Hnext by (by destruct anomaly).
  assert (defined v && is_valid (gradient_edge v)
          = is_valid (if defined v then gradient_edge v else Edge_default)) as ->
    by (by destruct (defined v)).
  apply should_compute_output_lookup.
  - rewrite num_outputs_small; rewrite Hnext, Hedges, length_fmap; [|done].
    apply lookup_lt_Some in Hv. lia.
  - by rewrite Hnext, Hedges, list_lookup_fmap, Hv.
Qed.

Lemma collected_edges_decide_outputs_witness :
  should_compute_output
    (new_Function false 0
       (collect_next_edges true
          [arg_variables [bound_variable; undefined_variable]; arg_variable some_variable]).1)
    1
  = Returns (defined undefined_variable && is_valid (gradient_edge undefined_variable)).
Proof.
  refine (collected_edges_decide_outputs false 0
            [arg_variables [bound_variable; undefined_variable]; arg_variable some_variable]
            1 undefined_variable _ _).
  - vm_compute. reflexivity.
  - reflexivity.
Defined.

End FunctionExtras.
